(** * Digital-Twin tool layer: a shallow embedding and its properties

    The development follows the TypeScript sources of the MCP server:
    the free-slot calculator of the calendar tool ([computeFreeSlots]),
    the excerpt helper of the code-search tool ([truncateCode]), the three
    tool executors with their outbound HTTP requests, the manual
    switch-based dispatch handler, and the tool-call detector of the
    backend.

    Dates are modelled by their [getTime()] value, an integer number of
    milliseconds; the network is an oracle that answers each request from
    the history of requests made so far, and every request made is
    recorded in a trace.

    A duration is a JavaScript number. Module [Calendar] has the free-slot
    calculator on durations that are whole numbers of milliseconds, where
    the arithmetic of the code is exact; module [CalendarDouble] has it on
    every binary64 duration, with the rounding of [t + durationMs] and the
    truncation of [new Date]; the two are shown to agree on whole
    milliseconds. *)

From Stdlib Require Import ZArith Lia List String Ascii Bool DecimalString.
From Stdlib Require Import Floats.SpecFloat.
From Stdlib Require Import Sorting.Sorted Sorting.Permutation.
From stdpp Require Import gmap strings.
Import ListNotations.

(* ===================================================================== *)
(** * Part I. The embedding *)
(* ===================================================================== *)

(** ** Free-slot calculator (tools/calendar.ts, src/index.ts) *)

Module Calendar.
Local Open Scope Z_scope.

(** [{ start: Date; end: Date }], each date as its millisecond time
    value. *)
Record Interval : Type := mkInterval { start : Z; end_ : Z }.

(** The emission step of both loops: [30 * 60 * 1000]. *)
Definition STEP : Z := 30 * 60 * 1000.

(** [busy.sort((a, b) => a.start.getTime() - b.start.getTime())].
    Array.prototype.sort is stable, and for a consistent comparator the
    stable sort of a list is unique; it is written here as an insertion
    sort that keeps the input order of intervals with equal start. *)
Fixpoint insertByStart (b : Interval) (l : list Interval) : list Interval :=
  match l with
  | [] => [b]
  | x :: r => if start b <=? start x then b :: x :: r else x :: insertByStart b r
  end.

Definition sortByStart (busy : list Interval) : list Interval :=
  fold_right insertByStart [] busy.

(** The inner loop
    [while (t + durationMs <= limit) { slots.push({t, t + durationMs}); t += STEP }]
    unrolled [fuel] times, for a [durationMs] that is a whole number of
    milliseconds: the sum is then exact and [new Date] keeps it as it is.
    [CalendarDouble.emitLoop] is the loop for every number. *)
Fixpoint emitLoop (fuel : nat) (t limit durationMs : Z) (slots : list Interval)
  : list Interval :=
  match fuel with
  | O => slots
  | S fuel' =>
      if t + durationMs <=? limit
      then emitLoop fuel' (t + STEP) limit durationMs
             (slots ++ [mkInterval t (t + durationMs)])
      else slots
  end.

(** The number of iterations the loop makes from [t]: none when the guard
    fails at once, else one per step that still fits below [limit]. *)
Definition emitFuel (t limit durationMs : Z) : nat :=
  Z.to_nat ((limit - durationMs - t) / STEP + 1).

Definition emitSlots (t limit durationMs : Z) (slots : list Interval)
  : list Interval :=
  emitLoop (emitFuel t limit durationMs) t limit durationMs slots.

(** The state of the sweep: the [cursor] and the [slots] pushed so far. *)
Record Sweep : Type := mkSweep { cursor : Z; slots : list Interval }.

(** One iteration of [for (const block of busy)]. *)
Definition visitBlock (durationMs : Z) (st : Sweep) (block : Interval) : Sweep :=
  let blockStart := start block in
  let blockEnd := end_ block in
  let slots' :=
    if blockStart - cursor st >=? durationMs
    then emitSlots (cursor st) blockStart durationMs (slots st)
    else slots st in
  let cursor' := if blockEnd >? cursor st then blockEnd else cursor st in
  mkSweep cursor' slots'.

Definition computeFreeSlots (busy : list Interval)
  (windowStart windowEnd durationMs : Z) : list Interval :=
  let st := fold_left (visitBlock durationMs) (sortByStart busy)
              (mkSweep windowStart []) in
  if windowEnd - cursor st >=? durationMs
  then emitSlots (cursor st) windowEnd durationMs (slots st)
  else slots st.

(** The same sweep written as a recursion over the sorted list: the slots
    of the gap before the first block, then the sweep of the rest from the
    advanced cursor, then the gap up to the window's end.
    [computeFreeSlots_sweep] relates it to the loop above. *)
Fixpoint sweepFrom (durationMs windowEnd c : Z) (l : list Interval)
  : list Interval :=
  match l with
  | [] => emitSlots c windowEnd durationMs []
  | b :: r =>
      emitSlots c (start b) durationMs []
        ++ sweepFrom durationMs windowEnd (Z.max c (end_ b)) r
  end.

(** The order the sort establishes. *)
Definition startLe (a b : Interval) : Prop := start a <= start b.

(** Two time ranges overlap when each starts before the other ends;
    ranges that only touch do not. *)
Definition overlaps (a b : Interval) : Prop :=
  start a < end_ b /\ start b < end_ a.

(** [b2] lies inside [b1]. *)
Definition contained (b2 b1 : Interval) : Prop :=
  start b1 <= start b2 /\ end_ b2 <= end_ b1.

(** A calendar event does not end before it starts. *)
Definition wellFormed (b : Interval) : Prop := start b <= end_ b.

(** Clock times of one day, in milliseconds. *)
Definition hm (h m : Z) : Z := (h * 60 + m) * 60 * 1000.

End Calendar.

(** ** JavaScript numbers *)

Module Number.
Local Open Scope Z_scope.

(** A [number]: NaN, an infinity, or the finite value [m * 2^e]. Every
    finite binary64 value has this form, with [|m| < 2^53] and
    [-1074 <= e]. The sign of zero, which no operation below can observe,
    is not kept. *)
Inductive number : Type :=
| NaN
| Infinity (negative : bool)
| Finite (m e : Z).

(** binary64: 53 bits of precision, least exponent [-1074], overflow at
    [2^1024]. *)
Definition PRECISION : Z := 53.
Definition EMIN : Z := -1074.
Definition EMAX : Z := 1024.

(** The number of bits of [a >= 0]. *)
Definition digits (a : Z) : Z := if a =? 0 then 0 else Z.log2 a + 1.

(** [a / 2^k] rounded to the nearest integer, ties to even. *)
Definition roundShift (a k : Z) : Z :=
  let q := a / 2 ^ k in
  let r := a mod 2 ^ k in
  let half := 2 ^ (k - 1) in
  if r <? half then q
  else if half <? r then q + 1
  else if Z.even q then q else q + 1.

(** The binary64 value nearest to [m * 2^e], ties to even: the low bits
    that exceed the precision, or lie below the least exponent, are
    rounded away in one step. *)
Definition round (m e : Z) : number :=
  let a := Z.abs m in
  let k := Z.max (digits a - PRECISION) (EMIN - e) in
  let '(a', e') := if 0 <? k then (roundShift a k, e + k) else (a, e) in
  if a' =? 0 then Finite 0 0
  else if EMAX <? digits a' + e' then Infinity (m <? 0)
  else Finite (Z.sgn m * a') e'.

(** The number of an integer time value or literal. *)
Definition ofZ (z : Z) : number := round z 0.

Definition neg (x : number) : number :=
  match x with
  | NaN => NaN
  | Infinity s => Infinity (negb s)
  | Finite m e => Finite (- m) e
  end.

(** [x + y]: the exact sum, rounded. *)
Definition add (x y : number) : number :=
  match x, y with
  | NaN, _ | _, NaN => NaN
  | Infinity s, Infinity s' => if Bool.eqb s s' then x else NaN
  | Infinity _, Finite _ _ => x
  | Finite _ _, Infinity _ => y
  | Finite m1 e1, Finite m2 e2 =>
      let e := Z.min e1 e2 in
      round (m1 * 2 ^ (e1 - e) + m2 * 2 ^ (e2 - e)) e
  end.

(** [x - y]. *)
Definition sub (x y : number) : number := add x (neg y).

(** [x * y]: the exact product, rounded. *)
Definition mul (x y : number) : number :=
  match x, y with
  | NaN, _ | _, NaN => NaN
  | Infinity s, Infinity s' => Infinity (xorb s s')
  | Infinity s, Finite m _ | Finite m _, Infinity s =>
      if m =? 0 then NaN else Infinity (xorb s (m <? 0))
  | Finite m1 e1, Finite m2 e2 => round (m1 * m2) (e1 + e2)
  end.

(** The order of two numbers; none when one of them is NaN. *)
Definition compare (x y : number) : option comparison :=
  match x, y with
  | NaN, _ | _, NaN => None
  | Infinity s, Infinity s' =>
      Some (if Bool.eqb s s' then Eq else if s then Lt else Gt)
  | Infinity s, Finite _ _ => Some (if s then Lt else Gt)
  | Finite _ _, Infinity s => Some (if s then Gt else Lt)
  | Finite m1 e1, Finite m2 e2 =>
      let e := Z.min e1 e2 in
      Some (m1 * 2 ^ (e1 - e) ?= m2 * 2 ^ (e2 - e))
  end.

(** [x <= y], [x >= y] and [x === y]. *)
Definition leb (x y : number) : bool :=
  match compare x y with
  | Some Lt | Some Eq => true
  | _ => false
  end.

Definition geb (x y : number) : bool := leb y x.

Definition eqb (x y : number) : bool :=
  match compare x y with
  | Some Eq => true
  | _ => false
  end.

(** The largest time value of a [Date], and the largest integer below
    which every integer is a number ([Number.MAX_SAFE_INTEGER]). *)
Definition MAX_TIME : Z := 8640000000000000.
Definition MAX_SAFE_INTEGER : Z := 2 ^ 53 - 1.

(** [new Date(x).getTime()], the time value TimeClip leaves: none (an
    invalid date) for NaN, an infinity or a magnitude above [MAX_TIME],
    else [x] with its fraction dropped. *)
Definition timeClip (x : number) : option Z :=
  match x with
  | Finite m e =>
      let v := if 0 <=? e then m * 2 ^ e else Z.quot m (2 ^ (- e)) in
      if Z.abs v <=? MAX_TIME then Some v else None
  | _ => None
  end.

(** The same value as the Standard Library's specification of IEEE 754
    has it. *)
Definition toSpecFloat (x : number) : spec_float :=
  match x with
  | NaN => S754_nan
  | Infinity s => S754_infinity s
  | Finite m e => binary_normalize 53 1024 m e false
  end.

End Number.

(** ** Free-slot calculator, on every duration *)

Module CalendarDouble.
Import Calendar Number.
Local Open Scope Z_scope.

(** [{ start: Date; end: Date }] as the calculator builds it: each date by
    its time value, none for an invalid date. *)
Record Slot : Type := mkSlot { slotStart : option Z; slotEnd : option Z }.

(** The inner loop
    [while (t + durationMs <= limit) {
       slots.push({ start: new Date(t), end: new Date(t + durationMs) });
       t += 30 * 60 * 1000 }]
    unrolled [fuel] times; none when the guard still holds after [fuel]
    iterations. *)
Fixpoint emitLoop (fuel : nat) (t : number) (limit : Z) (durationMs : number)
  (slots : list Slot) : option (list Slot) :=
  match fuel with
  | O => None
  | S fuel' =>
      if leb (add t durationMs) (ofZ limit)
      then emitLoop fuel' (add t (ofZ STEP)) limit durationMs
             (slots ++ [mkSlot (timeClip t) (timeClip (add t durationMs))])
      else Some slots
  end.

(** The state of the sweep: the [cursor], a time value of the input, and
    the [slots] pushed so far. *)
Record Sweep : Type := mkSweep { cursor : Z; slots : list Slot }.

(** One iteration of [for (const block of busy)]. *)
Definition visitBlock (fuel : nat) (durationMs : number) (st : option Sweep)
  (block : Interval) : option Sweep :=
  match st with
  | None => None
  | Some st =>
      let blockStart := start block in
      let blockEnd := end_ block in
      let slots' :=
        if geb (sub (ofZ blockStart) (ofZ (cursor st))) durationMs
        then emitLoop fuel (ofZ (cursor st)) blockStart durationMs (slots st)
        else Some (slots st) in
      let cursor' := if blockEnd >? cursor st then blockEnd else cursor st in
      match slots' with
      | Some slots' => Some (mkSweep cursor' slots')
      | None => None
      end
  end.

(** [computeFreeSlots(busy, windowStart, windowEnd, durationMs)], each
    [while] loop allowed [fuel] iterations. *)
Definition computeFreeSlots (fuel : nat) (busy : list Interval)
  (windowStart windowEnd : Z) (durationMs : number) : option (list Slot) :=
  match fold_left (visitBlock fuel durationMs) (sortByStart busy)
          (Some (mkSweep windowStart [])) with
  | None => None
  | Some st =>
      if geb (sub (ofZ windowEnd) (ofZ (cursor st))) durationMs
      then emitLoop fuel (ofZ (cursor st)) windowEnd durationMs (slots st)
      else Some (slots st)
  end.

(** A slot of two valid dates. *)
Definition dated (s : Interval) : Slot := mkSlot (Some (start s)) (Some (end_ s)).

(** The time values a [Date] can hold. *)
Definition validTime (t : Z) : Prop := - MAX_TIME <= t <= MAX_TIME.

Definition validInterval (b : Interval) : Prop :=
  validTime (start b) /\ validTime (end_ b).

End CalendarDouble.

(** ** JavaScript values, [process.env], and the outbound network *)

Module Js.

(** The line feed and the double quote, as one-character strings. *)
Definition nl : string := String "010"%char EmptyString.
Definition dq : string := String "034"%char EmptyString.

(** An integer inside a template literal. *)
Definition showZ (z : Z) : string := NilZero.string_of_int (Z.to_int z).

(** [parts.join(sep)]. *)
Fixpoint join (sep : string) (parts : list string) : string :=
  match parts with
  | [] => EmptyString
  | [x] => x
  | x :: rest => x +:+ sep +:+ join sep rest
  end.

(** [s.split("\n")]: the pieces between line feeds; always at least one. *)
Fixpoint splitLines (s : string) : list string :=
  match s with
  | EmptyString => [EmptyString]
  | String c r =>
      if Ascii.eqb c "010"%char then EmptyString :: splitLines r
      else match splitLines r with
           | h :: t => String c h :: t
           | [] => [String c EmptyString]
           end
  end.

(** [arr.slice(from)]: a negative [from] counts from the end. *)
Definition sliceFrom {A} (from : Z) (arr : list A) : list A :=
  let len := Z.of_nat (length arr) in
  let k := if (from <? 0)%Z then Z.max (len + from) 0 else from in
  skipn (Z.to_nat k) arr.

(** [s.toLowerCase()], on the ASCII letters: exact on ASCII text; a
    letter beyond ASCII, which JavaScript folds too, is left as it is. *)
Definition lowerChar (c : ascii) : ascii :=
  let n := nat_of_ascii c in
  if Nat.leb 65 n && Nat.leb n 90 then ascii_of_nat (n + 32) else c.

Fixpoint toLowerCase (s : string) : string :=
  match s with
  | EmptyString => EmptyString
  | String c r => String (lowerChar c) (toLowerCase r)
  end.

(** [hay.includes(needle)]. *)
Fixpoint includes (needle hay : string) : bool :=
  String.prefix needle hay
  || match hay with
     | EmptyString => false
     | String _ r => includes needle r
     end.

(** A value of a JSON argument object. [JObj] stands for any object or
    array: all the code asks of one is its truthiness. *)
Inductive JValue : Type :=
| JNull
| JBool (b : bool)
| JNum (n : Z)
| JStr (s : string)
| JObj.

(** Truthiness of a property read ([None]: the key is absent, the read
    gives [undefined]). *)
Definition truthy (v : option JValue) : bool :=
  match v with
  | None | Some JNull => false
  | Some (JBool b) => b
  | Some (JNum n) => negb (n =? 0)%Z
  | Some (JStr s) => negb (String.eqb s EmptyString)
  | Some JObj => true
  end.

(** [v || dflt]. *)
Definition orElse (v : option JValue) (dflt : JValue) : JValue :=
  match v with
  | Some x => if truthy v then x else dflt
  | None => dflt
  end.

(** [process.env]: variable names to values; [envSet] is the truthiness
    of a read ([undefined] and the empty string are falsy). *)
Definition envSet (v : option string) : bool :=
  match v with
  | Some s => negb (String.eqb s EmptyString)
  | None => false
  end.

(** A variable's value inside a template literal or as a URL:
    [undefined] prints as such. *)
Definition envStr (v : option string) : string :=
  match v with
  | Some s => s
  | None => "undefined"
  end.

(** [s || dflt] on a string. *)
Definition strOr (s dflt : string) : string :=
  if String.eqb s EmptyString then dflt else s.

(** [o || dflt] on a [string | null]. *)
Definition optOr (o : option string) (dflt : string) : string :=
  match o with
  | Some s => strOr s dflt
  | None => dflt
  end.

End Js.

Module Net.
Import Js.

(** GitHub's JSON bodies, as the executors cast them. *)
Record GHRepo : Type := mkRepo {
  repo_full_name : string;
  repo_description : option string;
  repo_html_url : string;
  repo_language : option string;
  repo_updated_at : string }.

Record GHSearchItem : Type := mkItem {
  item_path : string;
  item_repository_full_name : string;
  item_html_url : string }.

Record GHFileContent : Type := mkFile {
  file_content : option string;
  file_path : string;
  file_html_url : string }.

(** The Discord notification ([DiscordPayload], [DiscordEmbed]). *)
Record EmbedField : Type := mkField {
  field_name : string; field_value : string; field_inline : bool }.

Record DiscordEmbed : Type := mkEmbed {
  embed_title : string;
  embed_description : string;
  embed_color : Z;
  embed_fields : list EmbedField;
  embed_footer : string;
  embed_timestamp : string }.

Record DiscordPayload : Type := mkPayload {
  payload_content : string;
  payload_embeds : list DiscordEmbed }.

(** The URLs the executors build, by their variable parts. *)
Inductive Url : Type :=
| SearchCode (query username : string)
    (* https://api.github.com/search/code?q=<query>+user:<username>&per_page=5 *)
| UserRepos (username : string)
    (* https://api.github.com/users/<username>/repos?type=owner&sort=updated&per_page=30 *)
| RepoReadme (full_name : string)
    (* https://api.github.com/repos/<full_name>/readme *)
| RepoContents (full_name path : string)
    (* https://api.github.com/repos/<full_name>/contents/<path> *)
| Webhook (url : string).

(** One [fetch] call: a GET with the GitHub [Authorization] header, or the
    POST of a notification. *)
Inductive Request : Type :=
| GET (url : Url) (authorization : string)
| POST (url : Url) (body : DiscordPayload).

(** What [res.json()] gives: a body of one of the shapes above, or the
    message of the error it throws. *)
Inductive Json : Type :=
| JsonSearch (total_count : Z) (items : list GHSearchItem)
| JsonRepos (repos : list GHRepo)
| JsonFile (file : GHFileContent)
| JsonError (message : string).

Record Response : Type := mkResponse {
  status : Z;
  text : string;
  json : Json }.

(** [res.ok]: a status in the range 200-299. *)
Definition ok (r : Response) : bool :=
  ((200 <=? status r) && (status r <=? 299))%Z.

(** [fetch] resolves with a response or rejects with an error message. *)
Inductive FetchOutcome : Type :=
| Responded (r : Response)
| Rejected (message : string).

(** The outside world: the answer to a request, given the requests made
    before it. *)
Definition Oracle : Type := list Request -> Request -> FetchOutcome.

(** An [async] computation: it runs against the oracle, extends the trace
    of requests made, and returns a value or throws a message. *)
Inductive Outcome (A : Type) : Type :=
| Returned (a : A)
| Thrown (message : string).
Arguments Returned {A} a.
Arguments Thrown {A} message.

Definition M (A : Type) : Type :=
  Oracle -> list Request -> Outcome A * list Request.

Definition ret {A} (a : A) : M A := fun _ tr => (Returned a, tr).

Definition throw {A} (message : string) : M A := fun _ tr => (Thrown message, tr).

Definition bind {A B} (m : M A) (k : A -> M B) : M B :=
  fun net tr =>
    match m net tr with
    | (Returned a, tr') => k a net tr'
    | (Thrown e, tr') => (Thrown e, tr')
    end.

(** [try { m } catch (err) { handler(message) }]. *)
Definition tryCatch {A} (m : M A) (handler : string -> M A) : M A :=
  fun net tr =>
    match m net tr with
    | (Returned a, tr') => (Returned a, tr')
    | (Thrown e, tr') => handler e net tr'
    end.

(** [await fetch(...)]: the request is recorded whether it is answered or
    fails. *)
Definition fetch (req : Request) : M Response :=
  fun net tr =>
    match net tr req with
    | Responded r => (Returned r, tr ++ [req])
    | Rejected e => (Thrown e, tr ++ [req])
    end.

Notation "'let*' x ':=' m 'in' k" := (bind m (fun x => k))
  (at level 10, x name, k at level 200).

(** [(await res.json()) as T] for the three shapes. A body of another
    shape is treated like one that does not parse. *)
Definition shapeError : string := "unexpected response body".

Definition jsonSearch (r : Response) : M (Z * list GHSearchItem) :=
  match json r with
  | JsonSearch n items => ret (n, items)
  | JsonError e => throw e
  | _ => throw shapeError
  end.

Definition jsonRepos (r : Response) : M (list GHRepo) :=
  match json r with
  | JsonRepos repos => ret repos
  | JsonError e => throw e
  | _ => throw shapeError
  end.

Definition jsonFile (r : Response) : M GHFileContent :=
  match json r with
  | JsonFile f => ret f
  | JsonError e => throw e
  | _ => throw shapeError
  end.

(** [CallToolResult]: text blocks and the optional [isError] flag. *)
Inductive Content : Type := Text (text : string).

Record CallToolResult : Type := mkResult {
  content : list Content;
  isError : option bool }.

Definition textResult (t : string) : CallToolResult := mkResult [Text t] None.
Definition errorResult (t : string) : CallToolResult := mkResult [Text t] (Some true).

End Net.

(** ** Code search (tools/github.ts; the same helpers in src/index.ts) *)

Module Github.
Import Js Net.

(** [truncateCode(code, maxLines = 40)]. The head and tail sizes (20 and
    15 lines) and the omitted count ([lines.length - 35]) are the
    source's constants; they do not depend on [maxLines]. *)
Definition truncateCode (code : string) (maxLines : Z) : string :=
  let lines := splitLines code in
  let n := Z.of_nat (length lines) in
  if (n <=? maxLines)%Z then code
  else
    let head := join nl (firstn 20 lines) in
    let tail := join nl (sliceFrom (n - 15) lines) in
    head +:+ nl +:+ nl +:+ "  ... (" +:+ showZ (n - 35) +:+ " lines omitted) ..."
      +:+ nl +:+ nl +:+ tail.

Section Executor.

(** [process.env], and Node's base64 decoder
    ([Buffer.from(encoded, "base64").toString("utf-8")]). *)
Variable env : gmap string string.
Variable decodeBase64 : string -> string.

(** The [Authorization] header of [githubHeaders()]. *)
Definition authorization : string :=
  "token " +:+ envStr (env !! "GITHUB_TOKEN").

(** The filter of [fallbackRepoSearch]: the lower-cased query occurs in
    the lower-cased name, description and language joined by spaces. *)
Definition repoMatches (q : string) (r : GHRepo) : bool :=
  let haystack :=
    toLowerCase
      (join " " [repo_full_name r;
                 optOr (repo_description r) EmptyString;
                 optOr (repo_language r) EmptyString]) in
  includes q haystack.

(** The text block of one matched repository. *)
Definition repoBlock (repo : GHRepo) (readmeSnippet : string) : string :=
  "📂 " +:+ repo_full_name repo +:+ nl
  +:+ "📝 " +:+ optOr (repo_description repo) "No description" +:+ nl
  +:+ "🔧 Language: " +:+ optOr (repo_language repo) "Not specified" +:+ nl
  +:+ "🔗 " +:+ repo_html_url repo +:+ nl
  +:+ (if String.eqb readmeSnippet EmptyString then EmptyString
       else nl +:+ "README:" +:+ nl +:+ "```" +:+ nl +:+ readmeSnippet
            +:+ nl +:+ "```").

(** The README excerpt of one repository: empty when the request fails or
    the body has no content. *)
Definition readmeSnippetOf (repo : GHRepo) : M string :=
  let* readmeRes := fetch (GET (RepoReadme (repo_full_name repo)) authorization) in
  if ok readmeRes then
    let* readmeData := jsonFile readmeRes in
    match file_content readmeData with
    | Some c =>
        if String.eqb c EmptyString then ret EmptyString
        else ret (truncateCode (decodeBase64 c) 20)
    | None => ret EmptyString
    end
  else ret EmptyString.

(** [for (const repo of matched) { ...; results.push(...) }]. *)
Fixpoint readmeResults (matched : list GHRepo) (results : list string)
  : M (list string) :=
  match matched with
  | [] => ret results
  | repo :: rest =>
      let* readmeSnippet := readmeSnippetOf repo in
      readmeResults rest (results ++ [repoBlock repo readmeSnippet])
  end.

Definition separator : string := nl +:+ nl +:+ "---" +:+ nl +:+ nl.

Definition fallbackRepoSearch (query username : string) : M CallToolResult :=
  let* reposRes := fetch (GET (UserRepos username) authorization) in
  if negb (ok reposRes) then
    ret (errorResult ("Could not fetch repos: HTTP " +:+ showZ (status reposRes)))
  else
    let* repos := jsonRepos reposRes in
    let q := toLowerCase query in
    let matched := firstn 4 (filter (repoMatches q) repos) in
    if Nat.eqb (length matched) 0 then
      ret (textResult ("No repositories found matching " +:+ dq +:+ query +:+ dq
                       +:+ " for user " +:+ username +:+ "."))
    else
      let* results := readmeResults matched [] in
      ret (textResult ("🔍 Repos matching " +:+ dq +:+ query +:+ dq +:+ ":"
                       +:+ nl +:+ nl +:+ join separator results)).

(** The text block of one code hit. *)
Definition snippetBlock (item : GHSearchItem) (truncated : string) : string :=
  "📂 " +:+ item_repository_full_name item +:+ " → " +:+ item_path item +:+ nl
  +:+ "🔗 " +:+ item_html_url item +:+ nl
  +:+ "```" +:+ nl +:+ truncated +:+ nl +:+ "```".

(** [for (const item of searchData.items.slice(0, 3))], with its two
    [continue]s. *)
Fixpoint fetchSnippets (items : list GHSearchItem) (snippets : list string)
  : M (list string) :=
  match items with
  | [] => ret snippets
  | item :: rest =>
      let* fileRes :=
        fetch (GET (RepoContents (item_repository_full_name item) (item_path item))
                   authorization) in
      if negb (ok fileRes) then fetchSnippets rest snippets
      else
        let* fileData := jsonFile fileRes in
        match file_content fileData with
        | Some c =>
            if String.eqb c EmptyString then fetchSnippets rest snippets
            else
              let code := decodeBase64 c in
              let truncated := truncateCode code 40 in
              fetchSnippets rest (snippets ++ [snippetBlock item truncated])
        | None => fetchSnippets rest snippets
        end
  end.

(** The [catch] of [githubSearch]. *)
Definition searchError (message : string) : M CallToolResult :=
  ret (errorResult ("GitHub search error: " +:+ message)).

Definition githubSearch (query : string) : M CallToolResult :=
  let username := env !! "GITHUB_USERNAME" in
  let token := env !! "GITHUB_TOKEN" in
  if negb (envSet token) || negb (envSet username) then
    ret (errorResult "ERROR: GITHUB_TOKEN or GITHUB_USERNAME not set in environment.")
  else
    let username := envStr username in
    tryCatch
      (let* searchRes := fetch (GET (SearchCode query username) authorization) in
       if negb (ok searchRes) then fallbackRepoSearch query username
       else
         let* searchData := jsonSearch searchRes in
         let '(total_count, items) := searchData in
         if (total_count =? 0)%Z || Nat.eqb (length items) 0 then
           fallbackRepoSearch query username
         else
           let* snippets := fetchSnippets (firstn 3 items) [] in
           if Nat.eqb (length snippets) 0 then fallbackRepoSearch query username
           else
             ret (textResult ("🔍 GitHub search results for " +:+ dq +:+ query +:+ dq
                              +:+ ":" +:+ nl +:+ nl +:+ join separator snippets)))
      searchError.

End Executor.
End Github.

(** ** Alert dispatch (tools/discord.ts; [send_discord_alert] of src/index.ts) *)

Module Discord.
Import Js Net.

Section Executor.

(** [process.env], and the two readings of the clock:
    [new Date().toLocaleString("en-IN", ...)] and
    [new Date().toISOString()]. *)
Variable env : gmap string string.
Variable nowLocale nowISO : string.

Definition buildPayload (visitorName company message : string) : DiscordPayload :=
  mkPayload "🚨 **High-Value Lead Alert**"
    [ mkEmbed "🚨 New Lead Notification"
        (strOr message "A high-value visitor interaction was detected.")
        0xff4500
        [ mkField "👤 Visitor" (strOr visitorName "Unknown") true;
          mkField "🏢 Company" (strOr company "Not specified") true;
          mkField "⏰ Time" nowLocale true ]
        "Vageshwar's Digital Twin — Automated Alert"
        nowISO ].

Definition notConfigured : string := "ERROR: DISCORD_WEBHOOK_URL not set.".

Definition sentText (visitorName company : string) : string :=
  "✅ Discord alert sent successfully. Vageshwar has been notified about "
  +:+ visitorName +:+ " from " +:+ company +:+ ".".

Definition rejectedText (res : Response) : string :=
  "Discord webhook returned HTTP " +:+ showZ (status res) +:+ ": " +:+ text res.

Definition alertError (message : string) : string :=
  "Discord alert error: " +:+ message.

(** tools/discord.ts *)
Definition sendDiscordAlert (visitorName company message : string)
  : M CallToolResult :=
  let webhookUrl := env !! "DISCORD_WEBHOOK_URL" in
  if negb (envSet webhookUrl) then ret (errorResult notConfigured)
  else
    let webhookUrl := envStr webhookUrl in
    tryCatch
      (let payload := buildPayload visitorName company message in
       let* res := fetch (POST (Webhook webhookUrl) payload) in
       if (status res =? 204)%Z || (status res =? 200)%Z then
         ret (textResult (sentText visitorName company))
       else ret (errorResult (rejectedText res)))
      (fun message => ret (errorResult (alertError message))).

(** src/index.ts: the same tool of the decorator-based service; it returns
    the bare text. *)
Definition send_discord_alert (visitorName company message : string) : M string :=
  let webhookUrl := env !! "DISCORD_WEBHOOK_URL" in
  if negb (envSet webhookUrl) then ret notConfigured
  else
    let webhookUrl := envStr webhookUrl in
    tryCatch
      (let payload := buildPayload visitorName company message in
       let* res := fetch (POST (Webhook webhookUrl) payload) in
       if (status res =? 204)%Z || (status res =? 200)%Z then
         ret (sentText visitorName company)
       else ret (rejectedText res))
      (fun message => ret (alertError message)).

End Executor.
End Discord.

(** ** Tool registry and dispatch (the [CallToolRequestSchema] handler) *)

Module Dispatch.
Import Js Net.

(** A tool as [TOOLS] declares it: its name and the [required] keys of its
    input schema. *)
Record ToolDecl : Type := mkTool { tool_name : string; tool_required : list string }.

Definition TOOLS : list ToolDecl :=
  [ mkTool "github_search" ["query"];
    mkTool "get_calendar_slots" ["duration"];
    mkTool "send_discord_alert" ["visitor_name"; "company"; "message"] ].

(** [args?.key]: [args] itself may be undefined. *)
Definition prop (args : option (gmap string JValue)) (key : string) : option JValue :=
  match args with
  | Some obj => obj !! key
  | None => None
  end.

Section Handler.

(** The three executors. The [as string] and [as number] casts of the
    handler are erased at run time, so an executor receives the value that
    was read. [nonNumberLe0] is JavaScript's [v <= 0] on a value that is
    not a number. *)
Variable githubSearch : JValue -> M CallToolResult.
Variable getCalendarSlots : JValue -> M CallToolResult.
Variable sendDiscordAlert : JValue -> JValue -> JValue -> M CallToolResult.
Variable nonNumberLe0 : JValue -> bool.

Definition leZero (v : JValue) : bool :=
  match v with
  | JNum n => (n <=? 0)%Z
  | _ => nonNumberLe0 v
  end.

Definition queryRequired : string := "ERROR: 'query' argument is required.".
Definition durationRequired : string :=
  "ERROR: 'duration' argument must be a positive number (minutes).".

Definition callTool (name : string) (args : option (gmap string JValue))
  : M CallToolResult :=
  if String.eqb name "github_search" then
    match prop args "query" with
    | Some query =>
        if negb (truthy (Some query)) then ret (errorResult queryRequired)
        else githubSearch query
    | None => ret (errorResult queryRequired)
    end
  else if String.eqb name "get_calendar_slots" then
    match prop args "duration" with
    | Some duration =>
        if negb (truthy (Some duration)) || leZero duration
        then ret (errorResult durationRequired)
        else getCalendarSlots duration
    | None => ret (errorResult durationRequired)
    end
  else if String.eqb name "send_discord_alert" then
    let visitorName := orElse (prop args "visitor_name") (JStr "Unknown") in
    let company := orElse (prop args "company") (JStr "Unknown") in
    let message := orElse (prop args "message") (JStr EmptyString) in
    sendDiscordAlert visitorName company message
  else ret (errorResult ("Unknown tool: " +:+ name)).

End Handler.

(** A value read where the executor's signature says [string]: exact on
    strings, and the template-literal text of the other scalars. *)
Definition asText (v : JValue) : string :=
  match v with
  | JStr s => s
  | JNum n => showZ n
  | JBool true => "true"
  | JBool false => "false"
  | JNull => "null"
  | JObj => "[object Object]"
  end.

End Dispatch.

(** ** Tool-call detector (backend) *)

Module Detector.
Import Js.

(** A Python [str], by its code points. *)
Definition Text : Type := list N.

(** The text of an ASCII literal. *)
Definition codes (s : string) : Text :=
  map N_of_ascii (list_ascii_of_string s).

(** [s] without the literal prefix [p], when it starts with it. *)
Fixpoint stripPrefix (p s : Text) : option Text :=
  match p, s with
  | [], _ => Some s
  | a :: p', b :: s' => if N.eqb a b then stripPrefix p' s' else None
  | _ :: _, [] => None
  end.

(** The longest prefix of [s] whose characters satisfy [f], and the rest:
    what a greedy [\w+] or [[^}]*] consumes. *)
Fixpoint span (f : N -> bool) (s : Text) : Text * Text :=
  match s with
  | [] => ([], [])
  | c :: r =>
      if f c then let '(run, rest) := span f r in (c :: run, rest)
      else ([], s)
  end.

(** [[^}]]: every character but the closing brace. *)
Definition notClose (c : N) : bool := negb (N.eqb c 125).

(** The text [TOOL:<name>|ARGS:{<body>}] and its second group. *)
Definition object (body : Text) : Text := codes "{" ++ body ++ codes "}".

Definition directive (name body : Text) : Text :=
  codes "TOOL:" ++ name ++ codes "|ARGS:" ++ object body.

Section Pattern.

(** [str.isalnum] beyond ASCII, as the Unicode database of the Python
    build has it. *)
Variable alnum : N -> bool.

(** [\w] of a [str] pattern: in ASCII a letter, a digit or the
    underscore; beyond ASCII every alphanumeric character. *)
Definition isWord (c : N) : bool :=
  if (c <? 128)%N then
    ((48 <=? c) && (c <=? 57))%N || ((65 <=? c) && (c <=? 90))%N
    || ((97 <=? c) && (c <=? 122))%N || (c =? 95)%N
  else alnum c.

(** Modelled from the spec: the detector is part of the Python backend
    (backend/main.py), which is not among the sources; the README quotes
    its pattern, [TOOL:(\w+)\|ARGS:(\{[^}]*\})], a [str] pattern, which
    Python matches code point by code point. [matchHere s] is a match of
    that pattern anchored at the start of [s], with its two groups. The
    character after a greedy [\w+] is not a word character and the one
    after a greedy [[^}]*] is a closing brace or the end, so a shorter run
    never matches where the longest one fails. *)
Definition matchHere (s : Text) : option (Text * Text) :=
  match stripPrefix (codes "TOOL:") s with
  | None => None
  | Some s1 =>
      let '(name, s2) := span isWord s1 in
      match name with
      | [] => None
      | _ :: _ =>
          match stripPrefix (codes "|ARGS:{") s2 with
          | None => None
          | Some s3 =>
              let '(body, s4) := span notClose s3 in
              match s4 with
              | _ :: _ => Some (name, object body)
              | [] => None
              end
          end
      end
  end.

(** Modelled from the spec: [TOOL_PATTERN.search(text)], the leftmost match
    (the match may occur anywhere in the string; first match wins). *)
Fixpoint search (text : Text) : option (Text * Text) :=
  match matchHere text with
  | Some m => Some m
  | None =>
      match text with
      | [] => None
      | _ :: rest => search rest
      end
  end.

Section Detect.

(** The JSON parser ([json.loads]) and the type of argument mappings;
    [None] when the text does not parse. *)
Variable Args : Type.
Variable parseJson : Text -> option Args.

(** Modelled from the spec: the detector yields zero or one directive, the
    tool name and argument mapping of the first match; when the JSON
    object of that match fails to parse the directive is discarded (spec
    4.1). *)
Definition detect (text : Text) : option (Text * Args) :=
  match search text with
  | Some (name, jsonText) =>
      match parseJson jsonText with
      | Some args => Some (name, args)
      | None => None
      end
  | None => None
  end.

End Detect.
End Pattern.

(** The depth of braces outside string literals: [None] when a brace
    closes nothing or a string literal is left open. *)
Fixpoint braceDepth (s : Text) (inString escaped : bool) (depth : nat)
  : option nat :=
  match s with
  | [] => if inString then None else Some depth
  | c :: r =>
      if inString then
        if escaped then braceDepth r true false depth
        else if N.eqb c 92 then braceDepth r true true depth
        else if N.eqb c 34 then braceDepth r false false depth
        else braceDepth r true false depth
      else if N.eqb c 34 then braceDepth r true false depth
      else if N.eqb c 123 then braceDepth r false false (S depth)
      else if N.eqb c 125 then
        match depth with
        | O => None
        | S d => braceDepth r false false d
        end
      else braceDepth r false false depth
  end.

(** Every JSON text has balanced braces outside its string literals. *)
Definition balanced (s : Text) : bool :=
  match braceDepth s false false 0 with
  | Some O => true
  | _ => false
  end.

(** A string literal of a JSON text. *)
Definition quoted (s : string) : string := dq +:+ s +:+ dq.

End Detector.

(** ** Calendar slot lookup (tools/calendar.ts; [get_calendar_slots] of
    src/index.ts) *)

Module CalendarTool.
Import Js Net Calendar.

(** An event of [response.data.items], by the time values of
    [start.dateTime] and [end.dateTime]; [None] where the event has no
    [dateTime] (an all-day event carries [date] instead). *)
Record Event : Type := mkEvent { ev_start : option Z; ev_end : option Z }.

(** [for (const event of events) { if (!event.start?.dateTime ||
    !event.end?.dateTime) continue; busy.push({ start, end }); }]. *)
Fixpoint buildBusy (events : list Event) : list Interval :=
  match events with
  | [] => []
  | event :: rest =>
      match ev_start event, ev_end event with
      | Some s, Some e => mkInterval s e :: buildBusy rest
      | _, _ => buildBusy rest
      end
  end.

(** The search window: [48 * 60 * 60 * 1000] milliseconds from now. *)
Definition WINDOW : Z := (48 * 60 * 60 * 1000)%Z.

(** The loop
    [for (let i = 0; i < workingSlots.length && suggestions.length < 6; i += step)
       suggestions.push(workingSlots[i])], unrolled [fuel] times. *)
Fixpoint pickLoop (fuel : nat) (workingSlots : list Interval) (step i : nat)
  (suggestions : list Interval) : list Interval :=
  match fuel with
  | O => suggestions
  | S fuel' =>
      if Nat.ltb i (length workingSlots) && Nat.ltb (length suggestions) 6 then
        match nth_error workingSlots i with
        | Some slot =>
            pickLoop fuel' workingSlots step (i + step) (suggestions ++ [slot])
        | None => suggestions
        end
      else suggestions
  end.

(** [step = Math.max(1, Math.floor(workingSlots.length / 6))]. Every
    iteration pushes one suggestion and the guard stops at six, so six
    iterations are all the loop can make ([pickLoop_fuel]). *)
Definition pickSuggestions (workingSlots : list Interval) : list Interval :=
  let step := Nat.max 1 (length workingSlots / 6) in
  pickLoop 6 workingSlots step 0 [].

(** The elements of [l] at the positions [i], [i + step], ..., at most
    [count] of them: what the loop pushes. *)
Fixpoint everyNth (count : nat) (l : list Interval) (step i : nat)
  : list Interval :=
  match count with
  | O => []
  | S count' =>
      match nth_error l i with
      | Some x => x :: everyNth count' l step (i + step)
      | None => []
      end
  end.

(** The state the calendar tool keeps and leaves behind: the module-level
    [_cachedClient] (a client is modelled by the credentials it was built
    from), and the [events.list] calls made, each with its calendar id,
    [timeMin] and [timeMax]. *)
Record CalState (K : Type) : Type := mkCalState {
  cachedClient : option K;
  listCalls : list (string * Z * Z) }.
Arguments mkCalState {K} _ _.
Arguments cachedClient {K} _.
Arguments listCalls {K} _.

Section Tool.

(** The library functions the tool calls: the IST hour of a time value
    ([parseInt(date.toLocaleString("en-IN", { timeZone: "Asia/Kolkata",
    hour: "numeric", hour12: false }), 10)]), the day and time labels of
    [toLocaleDateString] and [toLocaleTimeString], [JSON.parse] of a key
    file and [path.resolve]. *)
Variable istHour : Z -> Z.
Variable dayLabel timeLabel : Z -> string.
Variable K : Type.
Variable jsonParse : string -> Outcome K.
Variable resolve : string -> string.

(** The outside world of one call: [process.env], the files that exist
    with their contents, the clock, and the calendar service, which
    answers [events.list] (from the client, the calls made before and the
    call) with [response.data.items] or an error. *)
Variable env : gmap string string.
Variable files : gmap string string.
Variable now : Z.
Variable eventsList :
  K -> list (string * Z * Z) -> string * Z * Z -> Outcome (option (list Event)).

(** [hour >= 9 && hour < 18]. *)
Definition inWorkingHours (slot : Interval) : bool :=
  let hour := istHour (start slot) in
  ((9 <=? hour) && (hour <? 18))%Z.

(** From the events to the suggestions: busy intervals, free slots of the
    next 48 hours, the working-hours filter, the pick; [durationMs] is a
    whole number of milliseconds. *)
Definition suggest (events : list Event) (durationMs : Z) : list Interval :=
  let busy := buildBusy events in
  let windowEnd := (now + WINDOW)%Z in
  let allSlots := computeFreeSlots busy now windowEnd durationMs in
  let workingSlots := List.filter inWorkingHours allSlots in
  pickSuggestions workingSlots.

(** [suggestions.map((s, i) => `  ${i + 1}. ${dayLabel} <dash> ${startTime}
    to ${endTime} IST`)], from index [i]; the dash is a literal of each
    file. *)
Fixpoint formatWith (dash : string) (i : nat) (suggestions : list Interval)
  : list string :=
  match suggestions with
  | [] => []
  | s :: rest =>
      ("  " +:+ showZ (Z.of_nat i + 1) +:+ ". " +:+ dayLabel (start s)
       +:+ " " +:+ dash +:+ " "
       +:+ timeLabel (start s) +:+ " to " +:+ timeLabel (end_ s) +:+ " IST")
      :: formatWith dash (S i) rest
  end.

(** tools/calendar.ts. The file holds its dashes and its calendar sign as
    the characters their UTF-8 bytes give when read as Windows-1252; the
    literals are those characters, as the file has them. *)
Definition formatFrom : nat -> list Interval -> list string :=
  formatWith "â€”".

Definition slotsHeader (duration : Z) : string :=
  "ðŸ“… Available " +:+ showZ duration
  +:+ "-minute slots (next 48 hours, working hours IST):" +:+ nl +:+ nl.



(** [getCalendarClient()], with the texts of its two errors: the cached
    client if there is one; else the key from [GOOGLE_KEY_CONTENT], else
    from the file at [GOOGLE_KEY_PATH], and the client is cached. *)
Definition clientFrom (missingFile : string -> string) (neither : string)
  (cached : option K) : Outcome K * option K :=
  match cached with
  | Some client => (Returned client, cached)
  | None =>
      let keyFile :=
        if envSet (env !! "GOOGLE_KEY_CONTENT") then
          jsonParse (envStr (env !! "GOOGLE_KEY_CONTENT"))
        else if envSet (env !! "GOOGLE_KEY_PATH") then
          let keyPath := resolve (envStr (env !! "GOOGLE_KEY_PATH")) in
          match files !! keyPath with
          | Some contents => jsonParse contents
          | None => Thrown (missingFile keyPath)
          end
        else Thrown neither in
      match keyFile with
      | Returned key => (Returned key, Some key)
      | Thrown e => (Thrown e, None)
      end
  end.

(** tools/calendar.ts *)
Definition getCalendarClient : option K -> Outcome K * option K :=
  clientFrom
    (fun keyPath =>
       "GOOGLE_KEY_PATH is set to " +:+ dq +:+ keyPath +:+ dq
       +:+ " but the file does not exist. "
       +:+ "Either fix the path or set GOOGLE_KEY_CONTENT with the JSON contents instead.")
    ("Neither GOOGLE_KEY_CONTENT nor GOOGLE_KEY_PATH is set. "
     +:+ "Set one of them in your .env file.").


Definition calendarError (message : string) : string :=
  "Calendar error: " +:+ message.

Definition calendarNotConfigured : string :=
  "ERROR: GOOGLE_CALENDAR_ID or GOOGLE_KEY_PATH not set.".

Definition noSlotsFound (durationMinutes : Z) : string :=
  "No available " +:+ showZ durationMinutes
  +:+ "-minute slots found in the next 48 hours during working hours (9 AM â€“ 6 PM IST). "
  +:+ "The calendar is fully booked or the requested duration doesn't fit any gaps.".




(** tools/calendar.ts: [getCalendarSlots(durationMinutes)], for a whole
    number of minutes. *)
Definition getCalendarSlots (durationMinutes : Z) (st : CalState K)
  : CallToolResult * CalState K :=
  let calendarId := env !! "GOOGLE_CALENDAR_ID" in
  if negb (envSet calendarId) || negb (envSet (env !! "GOOGLE_KEY_PATH")) then
    (errorResult calendarNotConfigured, st)
  else
    match getCalendarClient (cachedClient st) with
    | (Thrown e, cached) =>
        (errorResult (calendarError e), mkCalState cached (listCalls st))
    | (Returned calendar, cached) =>
        let windowEnd := (now + WINDOW)%Z in
        let call := (envStr calendarId, now, windowEnd) in
        let st' := mkCalState cached (listCalls st ++ [call]) in
        match eventsList calendar (listCalls st) call with
        | Thrown e => (errorResult (calendarError e), st')
        | Returned items =>
            let events := default [] items in
            let durationMs := (durationMinutes * 60 * 1000)%Z in
            let suggestions := suggest events durationMs in
            if Nat.eqb (length suggestions) 0 then
              (textResult (noSlotsFound durationMinutes), st')
            else
              let formatted := formatFrom 0 suggestions in
              (textResult (slotsHeader durationMinutes +:+ join nl formatted), st')
        end
    end.


End Tool.
End CalendarTool.

(** ** Reorderings the sort may differ by *)

Module SlotOrder.
Import Calendar.

(** Two lists that differ only by exchanging neighbours with the same
    start: the sorted forms of one busy list given in two orders. *)
Inductive tieSwap : list Interval -> list Interval -> Prop :=
| tieSwap_refl l : tieSwap l l
| tieSwap_skip x l l' : tieSwap l l' -> tieSwap (x :: l) (x :: l')
| tieSwap_swap x y l : start x = start y -> tieSwap (x :: y :: l) (y :: x :: l)
| tieSwap_trans l1 l2 l3 : tieSwap l1 l2 -> tieSwap l2 l3 -> tieSwap l1 l3.

(** Chronological order without repeats. *)
Definition startsBefore (a b : Interval) : Prop := (start a < start b)%Z.

End SlotOrder.

(** ** The decorator-based service (src/index.ts): code search *)

Module Service.
Import Js Net.

Section Executor.

Variable env : gmap string string.
Variable decodeBase64 : string -> string.

(** [fallbackRepoSearch] of src/index.ts: the same requests, filter and
    README loop as in tools/github.ts; the results are bare texts. *)
Definition fallbackRepoSearch (query username : string) : M string :=
  let* reposRes := fetch (GET (UserRepos username) (Github.authorization env)) in
  if negb (ok reposRes) then
    ret ("Could not fetch repos: HTTP " +:+ showZ (status reposRes))
  else
    let* repos := jsonRepos reposRes in
    let q := toLowerCase query in
    let matched := firstn 4 (filter (Github.repoMatches q) repos) in
    if Nat.eqb (length matched) 0 then
      ret ("No repositories found matching " +:+ dq +:+ query +:+ dq
           +:+ " for user " +:+ username +:+ ".")
    else
      let* results := Github.readmeResults env decodeBase64 matched [] in
      ret ("🔍 Repos matching " +:+ dq +:+ query +:+ dq +:+ ":"
           +:+ nl +:+ nl +:+ join Github.separator results).

(** [github_search(input)], with [query = input.query]. *)
Definition github_search (query : string) : M string :=
  let username := env !! "GITHUB_USERNAME" in
  let token := env !! "GITHUB_TOKEN" in
  if negb (envSet token) || negb (envSet username) then
    ret "ERROR: GITHUB_TOKEN or GITHUB_USERNAME not set in environment."
  else
    let username := envStr username in
    tryCatch
      (let* searchRes :=
         fetch (GET (SearchCode query username) (Github.authorization env)) in
       if negb (ok searchRes) then fallbackRepoSearch query username
       else
         let* searchData := jsonSearch searchRes in
         let '(total_count, items) := searchData in
         if (total_count =? 0)%Z || Nat.eqb (length items) 0 then
           fallbackRepoSearch query username
         else
           let* snippets := Github.fetchSnippets env decodeBase64 (firstn 3 items) [] in
           if Nat.eqb (length snippets) 0 then fallbackRepoSearch query username
           else
             ret ("🔍 GitHub search results for " +:+ dq +:+ query +:+ dq
                  +:+ ":" +:+ nl +:+ nl +:+ join Github.separator snippets))
      (fun message => ret ("GitHub search error: " +:+ message)).

End Executor.
End Service.

(** ** Readings of results and traces *)

Module Trace.
Import Js Net.

(** The text of the first content block of a result. *)
Definition resultText (r : CallToolResult) : string :=
  match content r with
  | Text t :: _ => t
  | [] => EmptyString
  end.

(** No character of [s] is a line feed. *)
Fixpoint noLineFeed (s : string) : bool :=
  match s with
  | EmptyString => true
  | String c r => negb (Ascii.eqb c "010"%char) && noLineFeed r
  end.

(** The omission marker of [truncateCode]. *)
Definition omitted (count : Z) : string :=
  "  ... (" +:+ showZ count +:+ " lines omitted) ...".



(** [tr'] is [tr] followed by at most [n] further requests, all of which
    satisfy [P]. *)
Definition extendsBy (P : Request -> Prop) (n : nat) (tr tr' : list Request) : Prop :=
  exists added, tr' = (tr ++ added)%list /\ length added <= n /\ Forall P added.

(** A computation that, from every trace and against every oracle, makes
    at most [n] requests, all satisfying [P]. *)
Definition bounded {A} (P : Request -> Prop) (n : nat) (m : M A) : Prop :=
  forall net tr, extendsBy P n tr (snd (m net tr)).

(** A computation that never throws. *)
Definition returns {A} (m : M A) : Prop :=
  forall net tr, exists a, fst (m net tr) = Returned a.

(** A GET that carries the given [Authorization] header. *)
Definition authorizedGet (authorization : string) (req : Request) : Prop :=
  match req with
  | GET _ a => a = authorization
  | POST _ _ => False
  end.

(** The outcome of a computation with its result mapped by [f]. *)
Definition mapOutcome {A B} (f : A -> B) (x : Outcome A * list Request)
  : Outcome B * list Request :=
  match x with
  | (Returned a, tr) => (Returned (f a), tr)
  | (Thrown e, tr) => (Thrown e, tr)
  end.

End Trace.

(** ** Environments, networks and inputs of the worked scenarios *)

Module Scenarios.
Import Js Net Dispatch Detector.

(** A network in which every request is refused. *)
Definition offline : Oracle := fun _ _ => Rejected "offline".

(** A configured environment, and a network whose code search finds
    nothing and whose repository listing is empty. *)
Definition githubEnv : gmap string string :=
  <["GITHUB_USERNAME" := "vageshwar"]> (<["GITHUB_TOKEN" := "ghp_token"]> ∅).

Definition emptySearchNet : Oracle :=
  fun _ req =>
    match req with
    | GET (SearchCode _ _) _ => Responded (mkResponse 200 EmptyString (JsonSearch 0 []))
    | GET (UserRepos _) _ => Responded (mkResponse 200 EmptyString (JsonRepos []))
    | _ => Rejected "offline"
    end.

(** A README of 21 lines, [line 1] to [line 21]. *)
Definition readme21 : string :=
  join nl (map (fun k => "line " +:+ showZ (Z.of_nat k)) (seq 1 21)).

(** A parser for the README's example of a directive: it accepts a text
    with balanced braces and returns it as it is. *)
Definition exampleParser (s : Text) : option Text :=
  if balanced s then Some s else None.

(** An argument object that holds an object, and a model output with a
    directive that carries it. *)
Definition nestedObject : Text :=
  codes ("{" +:+ quoted "query" +:+ ":{" +:+ quoted "lang" +:+ ":"
         +:+ quoted "ts" +:+ "}}").

Definition nestedText : Text :=
  codes "Checking. TOOL:github_search|ARGS:" ++ nestedObject.

(** The body of the README's example, and a model output in which a
    directive whose braces hold no JSON comes before it. *)
Definition reactBody : Text := codes (quoted "query" +:+ ":" +:+ quoted "React").

Definition twoDirectives : Text :=
  codes "TOOL:github_search|ARGS:{query} then "
  ++ directive (codes "github_search") reactBody.

(** A directive whose name holds a hyphen. *)
Definition hyphenated : Text := directive (codes "github-search") reactBody.

(** A configured webhook, and a network that accepts every notification. *)
Definition discordEnv : gmap string string :=
  <["DISCORD_WEBHOOK_URL" := "https://discord.example/api/webhooks/1"]> ∅.

Definition acceptingNet : Oracle :=
  fun _ _ => Responded (mkResponse 204 EmptyString (JsonError "no content")).

(** The handler with the executor of tools/discord.ts behind it. *)
Definition discordExecutor (nowLocale nowISO : string)
  (visitorName company message : JValue) : M CallToolResult :=
  Discord.sendDiscordAlert discordEnv nowLocale nowISO
    (asText visitorName) (asText company) (asText message).

End Scenarios.

(** ** Libraries and inputs of the calendar scenarios *)

Module CalendarScenarios.
Import Js Net Calendar CalendarTool.

(** The hour of the day at the fixed offset +05:30 of Asia/Kolkata. *)
Definition istHourOf (t : Z) : Z := (((t + 19800000) / 3600000) mod 24)%Z.

(** Labels that print the time value. *)
Definition labelOf (t : Z) : string := showZ t.

(** [JSON.parse] on the key texts of these scenarios: the empty object
    parses, and is kept as its text; the empty text does not. No other
    text is given to it. *)
Definition parseKey (contents : string) : Outcome string :=
  if String.eqb contents "{}" then Returned contents
  else Thrown "Unexpected end of JSON input".

(** A calendar with one timed event, 04:00-05:00 after the epoch, and one
    all-day event. *)
Definition oneMeeting : list Event :=
  [ mkEvent (Some (hm 4 0)) (Some (hm 5 0)); mkEvent None None ].

Definition calendarOf (events : list Event)
  : string -> list (string * Z * Z) -> string * Z * Z -> Outcome (option (list Event)) :=
  fun _ _ _ => Returned (Some events).

(** The key only in [GOOGLE_KEY_CONTENT]; and the key in a file. *)
Definition contentEnv : gmap string string :=
  <["GOOGLE_CALENDAR_ID" := "me@example.com"]>
    (<["GOOGLE_KEY_CONTENT" := "{}"]> ∅).


Definition keyFiles : gmap string string :=
  <["./google_key.json" := "{}"]> ∅.

End CalendarScenarios.

(** ** Networks of the code-search scenarios *)

Module GithubScenarios.
Import Js Net.

Definition twin : GHRepo :=
  mkRepo "vageshwar/twin" (Some "React front end of the twin")
    "https://github.com/vageshwar/twin" (Some "TypeScript") "2026-01-05T04:30:00Z".

Definition notes : GHRepo :=
  mkRepo "vageshwar/notes" None "https://github.com/vageshwar/notes" (Some "Go")
    "2025-11-02T10:00:00Z".

(** The code search is rate-limited (403); the listing and the READMEs
    are served. *)
Definition rateLimitedNet : Oracle :=
  fun _ req =>
    match req with
    | GET (SearchCode _ _) _ =>
        Responded (mkResponse 403 "API rate limit exceeded" (JsonError "not JSON"))
    | GET (UserRepos _) _ =>
        Responded (mkResponse 200 EmptyString (JsonRepos [twin; notes]))
    | GET (RepoReadme name) _ =>
        Responded (mkResponse 200 EmptyString
                     (JsonFile (mkFile (Some "# Twin") "README.md" EmptyString)))
    | _ => Rejected "offline"
    end.

(** A webhook that answers every notification with the given status. *)
Definition webhookNet (status : Z) : Oracle :=
  fun _ _ => Responded (mkResponse status "{}" (JsonError "no content")).

End GithubScenarios.

(** ** Durations of the scenarios over doubles *)

Module DoubleScenarios.
Import Number.

(** The doubles [0.13], [7800.000000000001] and [1e-10]. *)
Definition minutes013 : number := Finite 1170935903116329 (-53).
Definition ms7800 : number := Finite 8576190696652801 (-40).
Definition tenth_nanosecond : number := Finite 7737125245533627 (-86).

End DoubleScenarios.

(* ===================================================================== *)
(** * Part II. Properties *)
(* ===================================================================== *)

Section CalendarFacts.
Import Calendar.
Local Open Scope Z_scope.

(** Splits the sortedness of [x :: l] into that of [l] and the bound of [x]
    on every element of [l]. *)
Ltac sorted_cons H Htail Hhead :=
  apply StronglySorted_inv in H as [Htail Hhead];
  rewrite List.Forall_forall in Hhead.

Lemma STEP_pos : 0 < STEP.
Proof. unfold STEP. lia. Qed.

(** The unrolled loop never stops for lack of fuel: it satisfies the
    unfolding equation of the [while] loop. *)
Lemma emitSlots_unfold t limit d acc :
  emitSlots t limit d acc =
  if t + d <=? limit
  then emitSlots (t + STEP) limit d (acc ++ [mkInterval t (t + d)])
  else acc.
Proof.
  unfold emitSlots, emitFuel.
  destruct (Z.leb_spec (t + d) limit) as [Hle | Hgt].
  - assert (H0 : 0 <= (limit - d - t) / STEP)
      by (apply Z.div_pos; [lia | apply STEP_pos]).
    replace (Z.to_nat ((limit - d - t) / STEP + 1))
      with (S (Z.to_nat ((limit - d - t) / STEP))) by lia.
    cbn [emitLoop].
    destruct (Z.leb_spec (t + d) limit); [| lia].
    f_equal.
    replace (limit - d - (t + STEP)) with ((limit - d - t) + (-1) * STEP) by lia.
    rewrite Z.div_add by (pose proof STEP_pos; lia).
    lia.
  - assert (H0 : (limit - d - t) / STEP < 0)
      by (apply Z.div_lt_upper_bound; [apply STEP_pos | lia]).
    replace (Z.to_nat ((limit - d - t) / STEP + 1)) with O by lia.
    reflexivity.
Qed.

Lemma emitLoop_acc fuel : forall t limit d acc,
  emitLoop fuel t limit d acc = acc ++ emitLoop fuel t limit d [].
Proof.
  induction fuel as [| fuel IH]; intros t limit d acc; cbn [emitLoop].
  - now rewrite app_nil_r.
  - destruct (t + d <=? limit); [| now rewrite app_nil_r].
    rewrite IH, (IH _ _ _ ([] ++ _)). cbn [app]. now rewrite <- app_assoc.
Qed.

Lemma emitSlots_acc t limit d acc :
  emitSlots t limit d acc = acc ++ emitSlots t limit d [].
Proof. unfold emitSlots. apply emitLoop_acc. Qed.

(** Every slot the loop pushes starts at or after the loop's first [t],
    spans exactly [d], and ends at or before [limit]. *)
Lemma emitLoop_In fuel : forall t limit d s,
  In s (emitLoop fuel t limit d []) ->
  t <= start s /\ end_ s = start s + d /\ end_ s <= limit.
Proof.
  induction fuel as [| fuel IH]; intros t limit d s; cbn [emitLoop].
  - intros [].
  - destruct (Z.leb_spec (t + d) limit) as [Hle | Hgt]; [| intros []].
    rewrite emitLoop_acc. cbn [app]. intros [<- | Hin].
    + cbn. lia.
    + apply IH in Hin. pose proof STEP_pos. lia.
Qed.

Lemma emitSlots_In t limit d s :
  In s (emitSlots t limit d []) ->
  t <= start s /\ end_ s = start s + d /\ end_ s <= limit.
Proof. apply emitLoop_In. Qed.

(** The [if (limit - cursor >= durationMs)] in front of each loop repeats
    the loop's first guard. *)
Lemma guarded_emitSlots c limit d acc :
  (if limit - c >=? d then emitSlots c limit d acc else acc)
  = emitSlots c limit d acc.
Proof.
  rewrite Z.geb_leb.
  destruct (Z.leb_spec d (limit - c)) as [Hle | Hgt]; [reflexivity |].
  rewrite emitSlots_unfold.
  destruct (Z.leb_spec (c + d) limit); [lia | reflexivity].
Qed.

Lemma emitSlots_nil c limit d : limit < c + d -> emitSlots c limit d [] = [].
Proof.
  intros H. rewrite emitSlots_unfold.
  destruct (Z.leb_spec (c + d) limit); [lia | reflexivity].
Qed.

Lemma visitBlock_cursor d st b :
  cursor (visitBlock d st b) = Z.max (cursor st) (end_ b).
Proof.
  unfold visitBlock. cbn [cursor]. rewrite Z.gtb_ltb.
  destruct (Z.ltb_spec (cursor st) (end_ b)); lia.
Qed.

Lemma visitBlock_slots d st b :
  slots (visitBlock d st b)
  = slots st ++ emitSlots (cursor st) (start b) d [].
Proof.
  unfold visitBlock. cbn [slots].
  rewrite guarded_emitSlots. apply emitSlots_acc.
Qed.

Lemma fold_visitBlock d we l : forall st,
  let st' := fold_left (visitBlock d) l st in
  emitSlots (cursor st') we d (slots st')
  = slots st ++ sweepFrom d we (cursor st) l.
Proof.
  induction l as [| b r IH]; intros st; cbn [fold_left sweepFrom].
  - apply emitSlots_acc.
  - cbn zeta in IH. rewrite IH, visitBlock_cursor, visitBlock_slots.
    now rewrite <- app_assoc.
Qed.

(** The loop and the recursive sweep agree. *)
Lemma computeFreeSlots_sweep busy ws we d :
  computeFreeSlots busy ws we d = sweepFrom d we ws (sortByStart busy).
Proof.
  unfold computeFreeSlots. cbn zeta. rewrite guarded_emitSlots.
  apply (fold_visitBlock d we (sortByStart busy) (mkSweep ws [])).
Qed.

(** *** The sort *)

Lemma insertByStart_In b l x :
  In x (insertByStart b l) <-> x = b \/ In x l.
Proof.
  induction l as [| y r IH]; cbn [insertByStart].
  - cbn. intuition.
  - destruct (start b <=? start y); cbn [In]; [| rewrite IH]; intuition.
Qed.

Lemma sortByStart_In busy x : In x (sortByStart busy) <-> In x busy.
Proof.
  induction busy as [| b r IH]; cbn [sortByStart fold_right]; [reflexivity |].
  fold (sortByStart r). rewrite insertByStart_In, IH. cbn. intuition.
Qed.

Lemma insertByStart_sorted b l :
  StronglySorted startLe l -> StronglySorted startLe (insertByStart b l).
Proof.
  induction 1 as [| y r Hr IH Hy]; cbn [insertByStart].
  - repeat constructor.
  - destruct (Z.leb_spec (start b) (start y)) as [Hle | Hgt].
    + constructor; [now constructor |].
      constructor; [exact Hle |].
      rewrite List.Forall_forall in *. intros z Hz. specialize (Hy z Hz).
      unfold startLe in *. lia.
    + constructor; [exact IH |].
      rewrite List.Forall_forall in *. intros z Hz.
      apply insertByStart_In in Hz as [-> | Hz]; [unfold startLe; lia | auto].
Qed.

Lemma insertByStart_perm b l : Permutation (b :: l) (insertByStart b l).
Proof.
  induction l as [| x r IH]; cbn [insertByStart]; [reflexivity |].
  destruct (start b <=? start x); [reflexivity |].
  rewrite perm_swap. now apply perm_skip.
Qed.

(** The sort rearranges the busy list and loses or adds nothing. *)
Lemma sortByStart_perm busy : Permutation busy (sortByStart busy).
Proof.
  induction busy as [| b r IH]; cbn [sortByStart fold_right]; [constructor |].
  fold (sortByStart r). rewrite <- insertByStart_perm. now apply perm_skip.
Qed.

Lemma sortByStart_sorted busy : StronglySorted startLe (sortByStart busy).
Proof.
  induction busy as [| b r IH]; cbn [sortByStart fold_right]; [constructor |].
  now apply insertByStart_sorted.
Qed.

(** *** What the sweep emits *)

(** Slots of a sweep from cursor [c] over a sorted list start at or after
    [c], and none overlaps a block of the list: later blocks start at or
    after the slot's end, earlier ones end at or before its start. *)
Lemma sweepFrom_disjoint d we l : forall c,
  StronglySorted startLe l ->
  forall s, In s (sweepFrom d we c l) ->
  c <= start s /\ forall b, In b l -> ~ overlaps s b.
Proof.
  induction l as [| b0 r IH]; intros c Hsorted s Hin; cbn [sweepFrom] in Hin.
  - apply emitSlots_In in Hin. split; [lia | intros b []].
  - sorted_cons Hsorted Hr Hb0.
    apply in_app_or in Hin as [Hin | Hin].
    + apply emitSlots_In in Hin. split; [lia |].
      intros b [<- | Hb]; unfold overlaps; [lia |].
      specialize (Hb0 b Hb). unfold startLe in Hb0. lia.
    + destruct (IH _ Hr s Hin) as [Hc Hdis]. split; [lia |].
      intros b [<- | Hb]; [unfold overlaps; lia | now apply Hdis].
Qed.

Lemma sweepFrom_duration d we l : forall c s,
  In s (sweepFrom d we c l) -> end_ s - start s = d.
Proof.
  induction l as [| b0 r IH]; intros c s Hin; cbn [sweepFrom] in Hin.
  - apply emitSlots_In in Hin. lia.
  - apply in_app_or in Hin as [Hin | Hin]; [| now apply IH in Hin].
    apply emitSlots_In in Hin. lia.
Qed.

Lemma sweepFrom_window d we l : forall c,
  (forall b, In b l -> start b <= we) ->
  forall s, In s (sweepFrom d we c l) -> c <= start s /\ end_ s <= we.
Proof.
  induction l as [| b0 r IH]; intros c Hl s Hin; cbn [sweepFrom] in Hin.
  - apply emitSlots_In in Hin. lia.
  - apply in_app_or in Hin as [Hin | Hin].
    + apply emitSlots_In in Hin. specialize (Hl b0 (or_introl eq_refl)). lia.
    + apply IH in Hin; [lia |]. intros b Hb. apply Hl. now right.
Qed.

(** C1. For every list of busy intervals (any order, overlapping or not),
    every window and every positive duration, no slot returned by
    [computeFreeSlots] overlaps any busy interval of the input. *)
Theorem computeFreeSlots_disjoint busy ws we d :
  0 < d ->
  forall s b, In s (computeFreeSlots busy ws we d) -> In b busy ->
  ~ overlaps s b.
Proof.
  intros _ s b Hs Hb. rewrite computeFreeSlots_sweep in Hs.
  apply (sweepFrom_disjoint d we _ ws (sortByStart_sorted busy)) in Hs.
  destruct Hs as [_ Hdis]. apply Hdis. now apply sortByStart_In.
Qed.

Lemma computeFreeSlots_disjoint_witness :
  0 < hm 0 30 /\
  ~ overlaps (mkInterval (hm 9 30) (hm 10 0)) (mkInterval (hm 10 0) (hm 10 30)).
Proof.
  split; [reflexivity |].
  apply (computeFreeSlots_disjoint
           [mkInterval (hm 12 0) (hm 13 0); mkInterval (hm 10 0) (hm 10 30)]
           (hm 9 0) (hm 14 0) (hm 0 30)).
  - reflexivity.
  - vm_compute. tauto.
  - cbn. tauto.
Defined.

(** C2, as the code has it. A busy interval that starts after the window's
    end opens a gap that reaches past the window, and the sweep fills it:
    here the window is 09:00-11:00, the only event is 12:00-13:00, and the
    slot 11:30-12:00 is returned. *)
Lemma computeFreeSlots_window_counterexample :
  In (mkInterval (hm 11 30) (hm 12 0))
     (computeFreeSlots [mkInterval (hm 12 0) (hm 13 0)] (hm 9 0) (hm 11 0) (hm 0 30))
  /\ 0 < hm 0 30
  /\ hm 11 0 < end_ (mkInterval (hm 11 30) (hm 12 0)).
Proof. vm_compute. intuition congruence. Qed.

(** C2 (amended). When every busy interval starts at or before the
    window's end (the calendar query only returns events that begin before
    [timeMax]), every slot returned for a positive duration lies within
    the window: it starts at or after [windowStart] and ends at or before
    [windowEnd]. *)
Theorem computeFreeSlots_within_window busy ws we d :
  0 < d ->
  (forall b, In b busy -> start b <= we) ->
  forall s, In s (computeFreeSlots busy ws we d) ->
  ws <= start s /\ end_ s <= we.
Proof.
  intros _ Hbusy s Hs. rewrite computeFreeSlots_sweep in Hs.
  apply (sweepFrom_window d we _ ws) in Hs; [exact Hs |].
  intros b Hb. apply Hbusy. now apply sortByStart_In.
Qed.

Lemma computeFreeSlots_within_window_witness :
  hm 9 0 <= start (mkInterval (hm 10 30) (hm 11 0))
  /\ end_ (mkInterval (hm 10 30) (hm 11 0)) <= hm 11 0.
Proof.
  apply (computeFreeSlots_within_window
           [mkInterval (hm 10 0) (hm 10 30)] (hm 9 0) (hm 11 0) (hm 0 30)).
  - reflexivity.
  - intros b [<- | []]. vm_compute. discriminate.
  - vm_compute. tauto.
Defined.



(** C4. Scenario A: with the single event 10:00-10:30, the window
    09:00-11:00, a 30-minute duration and the 30-minute step,
    [computeFreeSlots] returns 09:00-09:30, 09:30-10:00 and 10:30-11:00,
    in that order. *)
Theorem computeFreeSlots_scenario_A :
  STEP = hm 0 30 /\
  computeFreeSlots [mkInterval (hm 10 0) (hm 10 30)] (hm 9 0) (hm 11 0) (hm 0 30)
  = [ mkInterval (hm 9 0) (hm 9 30);
      mkInterval (hm 9 30) (hm 10 0);
      mkInterval (hm 10 30) (hm 11 0) ].
Proof. split; vm_compute; reflexivity. Qed.

(** *** Removing a contained interval *)

(** The cursor never moves backward. *)
Lemma visitBlock_cursor_mono d st b : cursor st <= cursor (visitBlock d st b).
Proof. rewrite visitBlock_cursor. lia. Qed.

Lemma fold_visitBlock_cursor_mono d l : forall st,
  cursor st <= cursor (fold_left (visitBlock d) l st).
Proof.
  induction l as [| b r IH]; intros st; cbn [fold_left]; [lia |].
  etransitivity; [apply (visitBlock_cursor_mono d st b) | apply IH].
Qed.

(** The insertion sort is stable under removal: taking one interval out of
    the input takes that same occurrence out of the sorted list. *)
Lemma insertByStart_split b l :
  exists p q, insertByStart b l = p ++ b :: q /\ l = p ++ q.
Proof.
  induction l as [| x r (p & q & Hins & Hl)]; cbn [insertByStart].
  - now exists [], [].
  - destruct (start b <=? start x).
    + now exists [], (x :: r).
    + exists (x :: p), q. cbn [app]. now rewrite Hins, Hl at 1.
Qed.

Lemma insertByStart_head a q :
  (forall y, In y q -> start a <= start y) -> insertByStart a q = a :: q.
Proof.
  destruct q as [| y r]; [reflexivity |]. intros H. cbn [insertByStart].
  specialize (H y (or_introl eq_refl)).
  destruct (Z.leb_spec (start a) (start y)); [reflexivity | lia].
Qed.

Lemma insertByStart_remove a b2 q p :
  StronglySorted startLe (p ++ b2 :: q) ->
  exists p' q',
    insertByStart a (p ++ b2 :: q) = p' ++ b2 :: q'
    /\ insertByStart a (p ++ q) = p' ++ q'.
Proof.
  induction p as [| x p0 IH]; cbn [app]; intros Hsorted.
  - sorted_cons Hsorted Hq Hb2. cbn [insertByStart].
    destruct (Z.leb_spec (start a) (start b2)) as [Hle | Hgt].
    + exists [a], q. split; [reflexivity |]. cbn [app].
      apply insertByStart_head. intros y Hy.
      specialize (Hb2 y Hy). unfold startLe in Hb2. lia.
    + now exists [], (insertByStart a q).
  - apply StronglySorted_inv in Hsorted as [Hrest _]. cbn [insertByStart].
    destruct (start a <=? start x).
    + now exists (a :: x :: p0), q.
    + destruct (IH Hrest) as (p' & q' & H1 & H2).
      exists (x :: p'), q'. cbn [app]. now rewrite H1, H2.
Qed.

Lemma sortByStart_remove l1 b2 l2 :
  exists p q,
    sortByStart (l1 ++ b2 :: l2) = p ++ b2 :: q
    /\ sortByStart (l1 ++ l2) = p ++ q.
Proof.
  induction l1 as [| a l1 (p & q & H1 & H2)]; cbn [app sortByStart fold_right].
  - fold (sortByStart l2).
    destruct (insertByStart_split b2 (sortByStart l2)) as (p & q & H1 & H2).
    exists p, q. now rewrite <- H2.
  - fold (sortByStart (l1 ++ b2 :: l2)). fold (sortByStart (l1 ++ l2)).
    rewrite H1, H2. apply insertByStart_remove.
    rewrite <- H1. apply sortByStart_sorted.
Qed.

(** Once the cursor has reached the common start [s] of the next blocks,
    raising it by an end time [e] that one of those blocks covers changes
    nothing. *)
Lemma sweepFrom_absorb d we s e :
  0 < d ->
  forall q c,
    StronglySorted startLe q ->
    (forall y, In y q -> s <= start y) ->
    (exists b1, In b1 q /\ start b1 = s /\ e <= end_ b1) ->
    s <= c ->
    sweepFrom d we (Z.max c e) q = sweepFrom d we c q.
Proof.
  intros Hd. induction q as [| y q' IH]; intros c Hsorted Hlow (b1 & Hin & Hs & He) Hc.
  - destruct Hin.
  - apply StronglySorted_inv in Hsorted as [Hq' Hy].
    rewrite List.Forall_forall in Hy.
    assert (Hys : start y = s).
    { pose proof (Hlow y (or_introl eq_refl)).
      destruct Hin as [-> | Hin]; [exact Hs |].
      specialize (Hy b1 Hin). unfold startLe in Hy. lia. }
    cbn [sweepFrom]. rewrite !emitSlots_nil by lia. cbn [app].
    destruct Hin as [-> | Hin].
    + f_equal. lia.
    + replace (Z.max (Z.max c e) (end_ y)) with (Z.max (Z.max c (end_ y)) e) by lia.
      apply IH; [exact Hq' | | now exists b1 | lia].
      intros z Hz. apply Hlow. now right.
Qed.

(** A block that the cursor has already passed, or that a block still to
    come covers, can be dropped from a sorted list of well-formed blocks. *)
Lemma sweepFrom_remove d we b2 q :
  0 < d ->
  forall p c,
    StronglySorted startLe (p ++ b2 :: q) ->
    Forall wellFormed (p ++ b2 :: q) ->
    (end_ b2 <= c \/ exists b1, In b1 (p ++ q) /\ contained b2 b1) ->
    sweepFrom d we c (p ++ b2 :: q) = sweepFrom d we c (p ++ q).
Proof.
  intros Hd. induction p as [| a p IH]; cbn [app]; intros c Hsorted Hwf Hcov.
  - sorted_cons Hsorted Hq Hb2.
    apply Forall_inv in Hwf as Hwf2. apply Forall_inv_tail in Hwf as Hwfq.
    unfold wellFormed in Hwf2. cbn [sweepFrom].
    destruct Hcov as [Hc | (b1 & Hin & Hs & He)].
    + rewrite emitSlots_nil by lia. cbn [app]. f_equal. lia.
    + assert (Hb1 : start b1 = start b2).
      { specialize (Hb2 b1 Hin). unfold startLe in Hb2. lia. }
      destruct q as [| y q']; [destruct Hin |].
      apply StronglySorted_inv in Hq as [Hq' Hy].
      rewrite List.Forall_forall in Hy.
      apply Forall_inv in Hwfq as Hwfy. unfold wellFormed in Hwfy.
      assert (Hys : start y = start b2).
      { pose proof (Hb2 y (or_introl eq_refl)) as Hle. unfold startLe in Hle.
        destruct Hin as [-> | Hin]; [exact Hb1 |].
        specialize (Hy b1 Hin). unfold startLe in Hy. lia. }
      cbn [sweepFrom]. rewrite Hys.
      rewrite (emitSlots_nil (Z.max c (end_ b2))) by lia. cbn [app]. f_equal.
      destruct Hin as [-> | Hin]; [f_equal; lia |].
      replace (Z.max (Z.max c (end_ b2)) (end_ y))
        with (Z.max (Z.max c (end_ y)) (end_ b2)) by lia.
      apply (sweepFrom_absorb d we (start b2)); [exact Hd | exact Hq' | | | lia].
      * intros z Hz. specialize (Hy z Hz). unfold startLe in Hy. lia.
      * now exists b1.
  - apply StronglySorted_inv in Hsorted as [Hrest _].
    apply Forall_inv_tail in Hwf.
    cbn [sweepFrom]. f_equal. apply IH; [exact Hrest | exact Hwf |].
    destruct Hcov as [Hc | (b1 & [-> | Hin] & Hcont)].
    + left. lia.
    + left. destruct Hcont. lia.
    + right. now exists b1.
Qed.

(** C10, as the code has it. Two inputs at which removing the contained
    interval changes the result.
    (1) A negative duration (the decorator-based service passes
    [durationMinutes = -60] on, since [-60 || 30] is [-60]): the gap test
    [blockStart - cursor >= durationMs] then also succeeds behind the
    cursor, and with the events 10:00-10:30 and 10:00-11:00 the second
    block emits slots again.
    (2) A positive duration and a pair that ends before it starts,
    (12:00, 10:30): it satisfies both inequalities of containment in
    10:00-11:00, opens a gap up to 12:00 and leaves the cursor at 11:00, so
    the slots from 11:00 are emitted twice. *)
Lemma computeFreeSlots_remove_counterexample :
  (contained (mkInterval (hm 10 0) (hm 10 30)) (mkInterval (hm 10 0) (hm 11 0))
   /\ computeFreeSlots
        [mkInterval (hm 10 0) (hm 10 30); mkInterval (hm 10 0) (hm 11 0)]
        (hm 9 0) (hm 12 0) (hm 0 (-60))
      <> computeFreeSlots
        [mkInterval (hm 10 0) (hm 11 0)]
        (hm 9 0) (hm 12 0) (hm 0 (-60)))
  /\
  (contained (mkInterval (hm 12 0) (hm 10 30)) (mkInterval (hm 10 0) (hm 11 0))
   /\ 0 < hm 0 30
   /\ computeFreeSlots
        [mkInterval (hm 10 0) (hm 11 0); mkInterval (hm 12 0) (hm 10 30)]
        (hm 9 0) (hm 14 0) (hm 0 30)
      <> computeFreeSlots
        [mkInterval (hm 10 0) (hm 11 0)]
        (hm 9 0) (hm 14 0) (hm 0 30)).
Proof.
  split; (split; [vm_compute; split; discriminate |]).
  - vm_compute. discriminate.
  - split; [reflexivity | vm_compute; discriminate].
Qed.

(** C10 (amended). For a positive duration and a busy list whose intervals
    all end no earlier than they start: if the list holds two intervals
    [b1] and [b2] with [b2] contained in [b1], then [computeFreeSlots]
    returns the same slot list with [b2] removed; and a block never moves
    the sweep cursor backward. *)
Theorem computeFreeSlots_remove_contained l1 b2 l2 b1 ws we d :
  0 < d ->
  Forall wellFormed (l1 ++ b2 :: l2) ->
  In b1 (l1 ++ l2) ->
  contained b2 b1 ->
  computeFreeSlots (l1 ++ b2 :: l2) ws we d = computeFreeSlots (l1 ++ l2) ws we d
  /\ forall st b, cursor st <= cursor (visitBlock d st b).
Proof.
  intros Hd Hwf Hb1 Hcont. split; [| intros; apply visitBlock_cursor_mono].
  rewrite !computeFreeSlots_sweep.
  destruct (sortByStart_remove l1 b2 l2) as (p & q & H1 & H2).
  rewrite H1, H2. apply sweepFrom_remove; [exact Hd | | |].
  - rewrite <- H1. apply sortByStart_sorted.
  - rewrite <- H1. rewrite List.Forall_forall in *.
    intros x Hx. apply Hwf. now apply sortByStart_In.
  - right. exists b1. split; [| exact Hcont].
    rewrite <- H2. now apply sortByStart_In.
Qed.

Lemma computeFreeSlots_remove_contained_witness :
  computeFreeSlots
    ([mkInterval (hm 12 0) (hm 13 0)]
       ++ mkInterval (hm 10 0) (hm 10 30) :: [mkInterval (hm 10 0) (hm 11 0)])
    (hm 9 0) (hm 14 0) (hm 0 30)
  = computeFreeSlots
      ([mkInterval (hm 12 0) (hm 13 0)] ++ [mkInterval (hm 10 0) (hm 11 0)])
      (hm 9 0) (hm 14 0) (hm 0 30)
  /\ forall st b, cursor st <= cursor (visitBlock (hm 0 30) st b).
Proof.
  apply (computeFreeSlots_remove_contained
           [mkInterval (hm 12 0) (hm 13 0)] (mkInterval (hm 10 0) (hm 10 30))
           [mkInterval (hm 10 0) (hm 11 0)] (mkInterval (hm 10 0) (hm 11 0))).
  - reflexivity.
  - repeat constructor; vm_compute; discriminate.
  - cbn. tauto.
  - split; vm_compute; discriminate.
Defined.

End CalendarFacts.

Section NumberFacts.
Import Number Calendar.
Local Open Scope Z_scope.

Lemma digits_safe a : 0 < a < 2 ^ 53 -> digits a <= 53.
Proof.
  intros H. unfold digits. destruct (Z.eqb_spec a 0); [lia |].
  assert (Z.log2 a < 53) by (apply Z.log2_lt_pow2; lia). lia.
Qed.

(** An integer below [2^53] in magnitude is a binary64 value. *)
Lemma round_safe m : Z.abs m < 2 ^ 53 -> round m 0 = Finite m 0.
Proof.
  intros H. destruct (Z.eq_dec m 0) as [-> | Hm]; [reflexivity |].
  pose proof (digits_safe (Z.abs m) ltac:(lia)) as Hd.
  unfold round, PRECISION, EMIN, EMAX.
  destruct (Z.ltb_spec 0 (Z.max (digits (Z.abs m) - 53) (-1074 - 0))); [lia |].
  destruct (Z.eqb_spec (Z.abs m) 0); [lia |].
  destruct (Z.ltb_spec 1024 (digits (Z.abs m) + 0)); [lia |].
  f_equal. rewrite Z.mul_comm. apply Z.abs_sgn.
Qed.

Lemma roundShift_ge a k : 0 <= a -> 0 < k -> a / 2 ^ k <= roundShift a k.
Proof.
  intros Ha Hk. unfold roundShift.
  destruct (_ <? _); [lia |]. destruct (_ <? _); [lia |]. destruct (Z.even _); lia.
Qed.

(** An integer of magnitude [2^53] or more rounds to a value of magnitude
    [2^53] or more, or overflows. *)
Lemma round_large m :
  2 ^ 53 <= Z.abs m ->
  round m 0 = Infinity (m <? 0)
  \/ exists a k, round m 0 = Finite (Z.sgn m * a) k /\ 0 < k /\ 2 ^ 53 <= a * 2 ^ k.
Proof.
  intros H. unfold round, PRECISION, EMIN, EMAX.
  set (a := Z.abs m) in *.
  assert (Ha : 0 < a) by lia.
  assert (Hlog : 53 <= Z.log2 a) by (apply Z.log2_le_pow2; lia).
  assert (Hdig : digits a = Z.log2 a + 1)
    by (unfold digits; destruct (Z.eqb_spec a 0); lia).
  rewrite Hdig.
  set (k := Z.log2 a + 1 - 53).
  assert (Hk : 0 < k) by (unfold k; lia).
  replace (Z.max k (-1074 - 0)) with k by lia.
  destruct (Z.ltb_spec 0 k); [| lia]. replace (0 + k) with k by lia.
  assert (Hq : 2 ^ 52 <= a / 2 ^ k).
  { apply Z.div_le_lower_bound; [lia |].
    rewrite <- Z.pow_add_r by lia.
    replace (k + 52) with (Z.log2 a) by (unfold k; lia).
    apply Z.log2_spec. exact Ha. }
  pose proof (roundShift_ge a k ltac:(lia) Hk) as Hr.
  destruct (Z.eqb_spec (roundShift a k) 0); [lia |].
  destruct (_ <? _); [now left |]. right.
  exists (roundShift a k), k. split; [reflexivity |]. split; [exact Hk |].
  replace (2 ^ 53) with (2 ^ 52 * 2 ^ 1) by reflexivity.
  apply Z.mul_le_mono_nonneg; try lia.
  apply Z.pow_le_mono_r; lia.
Qed.

Lemma leb_integers a b : leb (Finite a 0) (Finite b 0) = (a <=? b).
Proof.
  unfold leb, compare. cbn [Z.min Z.sub Z.opp Z.add Z.pow Z.pow_pos Pos.iter].
  change (Z.min 0 0) with 0. change (0 - 0) with 0. change (2 ^ 0) with 1.
  rewrite !Z.mul_1_r. unfold Z.leb. now destruct (a ?= b).
Qed.

(** [t + d <= limit] on integers: the sum is exact below [2^53], and above
    it the rounded sum still exceeds every time value. *)
Lemma leb_add_integers t d limit :
  - 2 ^ 53 < t + d -> Z.abs limit < 2 ^ 53 ->
  leb (add (Finite t 0) (Finite d 0)) (ofZ limit) = (t + d <=? limit).
Proof.
  intros Hlow Hlimit. unfold ofZ. rewrite (round_safe limit Hlimit).
  unfold add. change (Z.min 0 0) with 0. change (0 - 0) with 0.
  change (2 ^ 0) with 1. rewrite !Z.mul_1_r.
  destruct (Z.lt_ge_cases (t + d) (2 ^ 53)) as [Hlt | Hge].
  - rewrite round_safe by lia. apply leb_integers.
  - destruct (Z.leb_spec (t + d) limit); [lia |].
    destruct (round_large (t + d) ltac:(lia)) as [-> | (a & k & -> & Hk & Hak)];
      [destruct (Z.ltb_spec (t + d) 0); [lia | reflexivity] |].
    unfold leb, compare. replace (Z.min k 0) with 0 by lia.
    change (0 - 0) with 0. change (2 ^ 0) with 1. rewrite Z.mul_1_r, Z.sub_0_r.
    replace (Z.sgn (t + d)) with 1 by (symmetry; apply Z.sgn_pos; lia).
    rewrite Z.mul_1_l.
    destruct (Z.compare_spec (a * 2 ^ k) limit); try lia; reflexivity.
Qed.

(** [limit - cursor >= d] on time values and a positive safe integer. *)
Lemma geb_sub_integers limit c d :
  Z.abs limit < 2 ^ 53 -> Z.abs c < 2 ^ 53 -> 0 < d < 2 ^ 53 ->
  geb (sub (ofZ limit) (ofZ c)) (Finite d 0) = (limit - c >=? d).
Proof.
  intros Hlimit Hc Hd. unfold ofZ. rewrite (round_safe limit Hlimit), (round_safe c Hc).
  unfold sub, neg, add. change (Z.min 0 0) with 0. change (0 - 0) with 0.
  change (2 ^ 0) with 1. rewrite !Z.mul_1_r.
  replace (limit + - c) with (limit - c) by lia.
  unfold geb. rewrite Z.geb_leb.
  destruct (Z.lt_ge_cases (Z.abs (limit - c)) (2 ^ 53)) as [Hlt | Hge].
  - rewrite round_safe by exact Hlt. apply leb_integers.
  - destruct (round_large (limit - c) Hge) as [-> | (a & k & -> & Hk & Hak)].
    + unfold leb, compare.
      destruct (Z.ltb_spec (limit - c) 0), (Z.leb_spec d (limit - c)); lia || reflexivity.
    + unfold leb, compare. replace (Z.min 0 k) with 0 by lia.
      change (0 - 0) with 0. change (2 ^ 0) with 1. rewrite Z.mul_1_r, Z.sub_0_r.
      destruct (Z.leb_spec d (limit - c)).
      * replace (Z.sgn (limit - c)) with 1 by (symmetry; apply Z.sgn_pos; lia).
        rewrite Z.mul_1_l.
        destruct (Z.compare_spec d (a * 2 ^ k)); try lia; reflexivity.
      * replace (Z.sgn (limit - c)) with (-1) by (symmetry; apply Z.sgn_neg; lia).
        destruct (Z.compare_spec d (-1 * a * 2 ^ k)); try lia; reflexivity.
Qed.

Lemma timeClip_integer t :
  Z.abs t <= MAX_TIME -> timeClip (Finite t 0) = Some t.
Proof.
  intros H. unfold timeClip. cbn [Z.leb Z.compare]. change (2 ^ 0) with 1.
  rewrite Z.mul_1_r. destruct (Z.leb_spec (Z.abs t) MAX_TIME); [reflexivity | lia].
Qed.

End NumberFacts.

Section DoubleFacts.
Import Number Calendar DoubleScenarios.
Local Open Scope Z_scope.

Lemma add_integers a b :
  Z.abs (a + b) < 2 ^ 53 -> add (Finite a 0) (Finite b 0) = Finite (a + b) 0.
Proof.
  intros H. unfold add. change (Z.min 0 0) with 0. change (0 - 0) with 0.
  change (2 ^ 0) with 1. rewrite !Z.mul_1_r. now apply round_safe.
Qed.

(** Iterations enough for every loop between two valid dates. *)
Lemma fuel_enough t limit d fuel :
  CalendarDouble.validTime limit -> - MAX_TIME <= t -> 0 < d ->
  2 * MAX_TIME / STEP + 2 <= Z.of_nat fuel ->
  Z.max 0 ((limit - d - t) / STEP + 1) < Z.of_nat fuel.
Proof.
  intros [_ Hlimit] Ht Hd Hfuel.
  assert ((limit - d - t) / STEP <= 2 * MAX_TIME / STEP)
    by (apply Z.div_le_mono; [apply STEP_pos | lia]).
  assert (0 <= 2 * MAX_TIME / STEP) by (apply Z.div_pos; [unfold MAX_TIME; lia | apply STEP_pos]).
  lia.
Qed.

(** On an integer duration the loop over doubles pushes the slots of the
    loop over integers, and stops by its guard. *)
Lemma emitLoop_integral fuel : forall t limit d acc,
  0 < d < 2 ^ 53 -> - MAX_TIME <= t <= MAX_TIME + STEP ->
  CalendarDouble.validTime limit ->
  Z.max 0 ((limit - d - t) / STEP + 1) < Z.of_nat fuel ->
  CalendarDouble.emitLoop fuel (Finite t 0) limit (Finite d 0)
    (map CalendarDouble.dated acc)
  = Some (map CalendarDouble.dated (emitSlots t limit d acc)).
Proof.
  induction fuel as [| fuel IH]; intros t limit d acc Hd Ht Hlimit Hfuel; [lia |].
  pose proof Hlimit as [Hl1 Hl2]. unfold MAX_TIME in *.
  assert (HS : STEP = 1800000) by reflexivity.
  cbn [CalendarDouble.emitLoop].
  rewrite leb_add_integers by lia. rewrite emitSlots_unfold.
  destruct (Z.leb_spec (t + d) limit) as [Hle | Hgt]; [| reflexivity].
  replace (ofZ STEP) with (Finite STEP 0) by reflexivity.
  rewrite !add_integers by lia.
  rewrite !timeClip_integer by (unfold MAX_TIME; lia).
  replace (map CalendarDouble.dated acc
             ++ [CalendarDouble.mkSlot (Some t) (Some (t + d))])
    with (map CalendarDouble.dated (acc ++ [mkInterval t (t + d)]))
    by (now rewrite map_app).
  apply IH; [exact Hd | lia | exact Hlimit |].
  replace (limit - d - (t + STEP)) with ((limit - d - t) + (-1) * STEP) by lia.
  rewrite Z.div_add by lia.
  assert (0 <= (limit - d - t) / STEP) by (apply Z.div_pos; lia).
  lia.
Qed.

Lemma visitBlock_integral fuel d c acc b :
  0 < d < 2 ^ 53 -> CalendarDouble.validTime c -> CalendarDouble.validInterval b ->
  2 * MAX_TIME / STEP + 2 <= Z.of_nat fuel ->
  let st := visitBlock d (mkSweep c acc) b in
  CalendarDouble.visitBlock fuel (Finite d 0)
    (Some (CalendarDouble.mkSweep c (map CalendarDouble.dated acc))) b
  = Some (CalendarDouble.mkSweep (cursor st) (map CalendarDouble.dated (slots st)))
  /\ CalendarDouble.validTime (cursor st).
Proof.
  intros Hd Hc [Hs He] Hfuel st. subst st.
  unfold CalendarDouble.visitBlock, visitBlock.
  cbn [CalendarDouble.cursor CalendarDouble.slots cursor slots].
  pose proof Hc as Hc'. pose proof Hs as Hs'. unfold CalendarDouble.validTime, MAX_TIME in Hc', Hs'.
  rewrite geb_sub_integers by lia.
  split.
  - destruct (start b - c >=? d); [| reflexivity].
    replace (ofZ c) with (Finite c 0) by (unfold ofZ; now rewrite round_safe by lia).
    rewrite emitLoop_integral;
      [reflexivity | exact Hd | unfold MAX_TIME, STEP; lia | exact Hs |].
    apply fuel_enough; [exact Hs | unfold MAX_TIME; lia | lia | exact Hfuel].
  - destruct (end_ b >? c); assumption.
Qed.

Lemma fold_visitBlock_integral fuel d l : forall c acc,
  0 < d < 2 ^ 53 -> CalendarDouble.validTime c ->
  Forall CalendarDouble.validInterval l ->
  2 * MAX_TIME / STEP + 2 <= Z.of_nat fuel ->
  let st := fold_left (visitBlock d) l (mkSweep c acc) in
  fold_left (CalendarDouble.visitBlock fuel (Finite d 0)) l
    (Some (CalendarDouble.mkSweep c (map CalendarDouble.dated acc)))
  = Some (CalendarDouble.mkSweep (cursor st) (map CalendarDouble.dated (slots st)))
  /\ CalendarDouble.validTime (cursor st).
Proof.
  induction l as [| b r IH]; intros c acc Hd Hc Hall Hfuel; cbn [fold_left].
  - now split.
  - apply Forall_inv in Hall as Hb. apply Forall_inv_tail in Hall as Hr.
    destruct (visitBlock_integral fuel d c acc b Hd Hc Hb Hfuel) as [-> Hc'].
    destruct (visitBlock d (mkSweep c acc) b) as [c' acc'] eqn:E.
    cbn [cursor slots] in *. now apply IH.
Qed.

(** X25. For valid dates and a duration that is a positive whole number
    of milliseconds, at most [Number.MAX_SAFE_INTEGER], the calculator over
    doubles returns, once its loops are given enough iterations, and
    returns the slots of the calculator over integers, all with valid
    dates. *)
Theorem computeFreeSlots_whole_milliseconds busy ws we d :
  0 < d <= MAX_SAFE_INTEGER ->
  CalendarDouble.validTime ws -> CalendarDouble.validTime we ->
  Forall CalendarDouble.validInterval busy ->
  exists fuel0, forall fuel, (fuel0 <= fuel)%nat ->
    CalendarDouble.computeFreeSlots fuel busy ws we (ofZ d)
    = Some (map CalendarDouble.dated (computeFreeSlots busy ws we d)).
Proof.
  intros Hd Hws Hwe Hbusy. unfold MAX_SAFE_INTEGER in Hd.
  exists (Z.to_nat (2 * MAX_TIME / STEP + 2)). intros fuel Hfuel.
  assert (Hfuel' : 2 * MAX_TIME / STEP + 2 <= Z.of_nat fuel).
  { assert (0 <= 2 * MAX_TIME / STEP)
      by (apply Z.div_pos; [unfold MAX_TIME; lia | apply STEP_pos]).
    lia. }
  assert (Hsorted : Forall CalendarDouble.validInterval (sortByStart busy)).
  { rewrite List.Forall_forall in *. intros b Hb. apply Hbusy.
    now apply sortByStart_In. }
  unfold CalendarDouble.computeFreeSlots, computeFreeSlots.
  replace (ofZ d) with (Finite d 0) by (unfold ofZ; now rewrite round_safe by lia).
  destruct (fold_visitBlock_integral fuel d (sortByStart busy) ws [] ltac:(lia)
              Hws Hsorted Hfuel') as [Hfold Hc].
  cbn [map] in Hfold. rewrite Hfold. cbn zeta.
  destruct (fold_left (visitBlock d) (sortByStart busy) (mkSweep ws [])) as [c acc].
  cbn [cursor slots CalendarDouble.cursor CalendarDouble.slots] in *.
  pose proof Hc as Hc'. pose proof Hwe as Hwe'.
  unfold CalendarDouble.validTime, MAX_TIME in Hc', Hwe'.
  rewrite geb_sub_integers by lia.
  destruct (we - c >=? d); [| reflexivity].
  replace (ofZ c) with (Finite c 0) by (unfold ofZ; now rewrite round_safe by lia).
  apply emitLoop_integral; [lia | unfold MAX_TIME, STEP; lia | exact Hwe |].
  apply fuel_enough; [exact Hwe | unfold MAX_TIME; lia | lia | exact Hfuel'].
Qed.


(** A positive duration below the resolution of the time values: with
    [durationMs = 1e-10], [t + durationMs] rounds to [t], the guard of the
    loop holds at [t = blockStart], and the slot that starts at the
    zero-length event is pushed once before it and once after it. *)
Lemma computeFreeSlots_below_resolution (fuel : nat) :
  CalendarDouble.computeFreeSlots (3 + fuel) [mkInterval 1800000 1800000]
    0 3600000 tenth_nanosecond
  = Some (map CalendarDouble.dated
            [ mkInterval 0 0; mkInterval 1800000 1800000;
              mkInterval 1800000 1800000; mkInterval 3600000 3600000 ]).
Proof. vm_compute. reflexivity. Qed.

(** On the sums of these scenarios, [add] and [mul] are the addition and
    the multiplication of the Standard Library's IEEE 754 binary64. *)
Lemma arithmetic_as_SpecFloat :
  toSpecFloat (mul (mul minutes013 (ofZ 60)) (ofZ 1000))
  = SFmul 53 1024 (SFmul 53 1024 (toSpecFloat minutes013) (toSpecFloat (ofZ 60)))
      (toSpecFloat (ofZ 1000))
  /\ toSpecFloat (add (ofZ (hm 0 30)) ms7800)
     = SFadd 53 1024 (toSpecFloat (ofZ (hm 0 30))) (toSpecFloat ms7800)
  /\ toSpecFloat (add (ofZ 1800000) tenth_nanosecond)
     = SFadd 53 1024 (toSpecFloat (ofZ 1800000)) (toSpecFloat tenth_nanosecond)
  /\ toSpecFloat (add (ofZ 3600000) tenth_nanosecond)
     = SFadd 53 1024 (toSpecFloat (ofZ 3600000)) (toSpecFloat tenth_nanosecond).
Proof. vm_compute. repeat split. Qed.

Lemma computeFreeSlots_whole_milliseconds_witness :
  exists fuel0, forall fuel, (fuel0 <= fuel)%nat ->
    CalendarDouble.computeFreeSlots fuel [mkInterval (hm 10 0) (hm 11 0)]
      (hm 9 0) (hm 12 0) (ofZ 3600000)
    = Some (map CalendarDouble.dated
              (computeFreeSlots [mkInterval (hm 10 0) (hm 11 0)]
                 (hm 9 0) (hm 12 0) 3600000)).
Proof.
  apply (computeFreeSlots_whole_milliseconds [mkInterval (hm 10 0) (hm 11 0)]
           (hm 9 0) (hm 12 0) 3600000).
  - unfold MAX_SAFE_INTEGER. lia.
  - unfold CalendarDouble.validTime, MAX_TIME, hm. lia.
  - unfold CalendarDouble.validTime, MAX_TIME, hm. lia.
  - repeat constructor; unfold CalendarDouble.validTime, MAX_TIME, hm; cbn; lia.
Defined.

End DoubleFacts.

Section ExecutorFacts.
Import Js Net Scenarios.

(** *** Alert dispatch *)

(** C6. When [DISCORD_WEBHOOK_URL] is not configured (unset or empty),
    [sendDiscordAlert] returns the configuration-error text with
    [isError: true], and the trace of outbound requests is left as it was:
    no request is made. The tool of src/index.ts returns the same text,
    also without a request. *)
Theorem sendDiscordAlert_unconfigured
  (env : gmap string string) (nowLocale nowISO visitorName company message : string)
  (net : Oracle) (tr : list Request) :
  envSet (env !! "DISCORD_WEBHOOK_URL") = false ->
  Discord.sendDiscordAlert env nowLocale nowISO visitorName company message net tr
  = (Returned (mkResult [Text "ERROR: DISCORD_WEBHOOK_URL not set."] (Some true)), tr)
  /\ Discord.send_discord_alert env nowLocale nowISO visitorName company message net tr
     = (Returned "ERROR: DISCORD_WEBHOOK_URL not set.", tr).
Proof.
  intros Hunset.
  unfold Discord.sendDiscordAlert, Discord.send_discord_alert.
  rewrite Hunset. cbn [negb]. split; reflexivity.
Qed.

Lemma sendDiscordAlert_unconfigured_witness :
  Discord.sendDiscordAlert (<["DISCORD_WEBHOOK_URL" := EmptyString]> ∅)
    "Mon, 5 Jan, 10:00 am" "2026-01-05T04:30:00.000Z" "Ada" "Acme" "hello" offline []
  = (Returned (mkResult [Text "ERROR: DISCORD_WEBHOOK_URL not set."] (Some true)), [])
  /\ Discord.send_discord_alert (<["DISCORD_WEBHOOK_URL" := EmptyString]> ∅)
       "Mon, 5 Jan, 10:00 am" "2026-01-05T04:30:00.000Z" "Ada" "Acme" "hello" offline []
     = (Returned "ERROR: DISCORD_WEBHOOK_URL not set.", []).
Proof.
  apply (sendDiscordAlert_unconfigured (<["DISCORD_WEBHOOK_URL" := EmptyString]> ∅)).
  reflexivity.
Defined.

(** *** Code search *)

(** C8. When the code-search request is answered successfully with
    [total_count = 0] or an empty [items] array, [githubSearch] continues
    as [fallbackRepoSearch] (inside the same [try]): whatever the fallback
    returns is the result of [githubSearch], so an empty primary search on
    its own never makes the result an error. *)
Theorem githubSearch_empty_primary_falls_back
  (env : gmap string string) (decodeBase64 : string -> string)
  (query username : string) (st : Z) (body : string)
  (total_count : Z) (items : list GHSearchItem)
  (net : Oracle) (tr : list Request) :
  let searchReq := GET (SearchCode query username) (Github.authorization env) in
  let searchRes := mkResponse st body (JsonSearch total_count items) in
  let after := (tr ++ [searchReq])%list in
  env !! "GITHUB_USERNAME" = Some username ->
  envSet (Some username) = true ->
  envSet (env !! "GITHUB_TOKEN") = true ->
  net tr searchReq = Responded searchRes ->
  ok searchRes = true ->
  total_count = 0%Z \/ items = [] ->
  Github.githubSearch env decodeBase64 query net tr
  = tryCatch (Github.fallbackRepoSearch env decodeBase64 query username)
      Github.searchError net after
  /\ forall r tr',
       Github.fallbackRepoSearch env decodeBase64 query username net after
       = (Returned r, tr') ->
       Github.githubSearch env decodeBase64 query net tr = (Returned r, tr').
Proof.
  intros searchReq searchRes after Huser Huset Htoken Hnet Hok Hempty.
  assert (Heq : Github.githubSearch env decodeBase64 query net tr
                = tryCatch (Github.fallbackRepoSearch env decodeBase64 query username)
                    Github.searchError net after).
  { unfold Github.githubSearch. rewrite Huser, Htoken, Huset. cbn [negb orb envStr].
    unfold tryCatch at 1, bind at 1, fetch at 1. fold searchReq. rewrite Hnet.
    fold after. rewrite Hok. cbn [negb].
    unfold bind at 1, jsonSearch. cbn [json searchRes ret].
    destruct Hempty as [-> | ->]; cbn [Z.eqb orb length Nat.eqb].
    - reflexivity.
    - rewrite orb_true_r. reflexivity. }
  split; [exact Heq |].
  intros r tr' Hfb. rewrite Heq. unfold tryCatch. now rewrite Hfb.
Qed.

Lemma githubSearch_empty_primary_falls_back_witness :
  Github.githubSearch githubEnv id "react" emptySearchNet []
  = tryCatch (Github.fallbackRepoSearch githubEnv id "react" "vageshwar")
      Github.searchError emptySearchNet
      ([] ++ [GET (SearchCode "react" "vageshwar") (Github.authorization githubEnv)])%list
  /\ forall r tr',
       Github.fallbackRepoSearch githubEnv id "react" "vageshwar" emptySearchNet
         ([] ++ [GET (SearchCode "react" "vageshwar") (Github.authorization githubEnv)])%list
       = (Returned r, tr') ->
       Github.githubSearch githubEnv id "react" emptySearchNet [] = (Returned r, tr').
Proof.
  apply (githubSearch_empty_primary_falls_back githubEnv id "react" "vageshwar"
           200 EmptyString 0 [] emptySearchNet []).
  - reflexivity.
  - reflexivity.
  - reflexivity.
  - reflexivity.
  - reflexivity.
  - left. reflexivity.
Defined.

(** On that network the search ends with the fallback's "no repositories"
    text, which is not an error result, after the two requests. *)
Example githubSearch_empty_everywhere :
  Github.githubSearch githubEnv id "react" emptySearchNet []
  = (Returned (mkResult
       [Text ("No repositories found matching " +:+ dq +:+ "react" +:+ dq
              +:+ " for user vageshwar.")] None),
     [GET (SearchCode "react" "vageshwar") "token ghp_token";
      GET (UserRepos "vageshwar") "token ghp_token"]).
Proof. vm_compute. reflexivity. Qed.

(** *** README excerpts *)

(** The excerpt attached to a matched repository is
    [truncateCode(readme, 20)] of the decoded README. *)
Lemma readmeSnippetOf_ok env decodeBase64 repo st body file c net tr :
  net tr (GET (RepoReadme (repo_full_name repo)) (Github.authorization env))
  = Responded (mkResponse st body (JsonFile file)) ->
  ok (mkResponse st body (JsonFile file)) = true ->
  file_content file = Some c ->
  c <> EmptyString ->
  fst (Github.readmeSnippetOf env decodeBase64 repo net tr)
  = Returned (Github.truncateCode (decodeBase64 c) 20).
Proof.
  intros Hnet Hok Hc Hne.
  unfold Github.readmeSnippetOf, bind at 1, fetch. rewrite Hnet, Hok.
  unfold bind, jsonFile. cbn [json ret]. rewrite Hc.
  destruct (String.eqb_spec c EmptyString); [contradiction | reflexivity].
Qed.

(** A README of at most 20 lines is attached whole. *)
Lemma truncateCode_short code maxLines :
  (Z.of_nat (length (splitLines code)) <= maxLines)%Z ->
  Github.truncateCode code maxLines = code.
Proof.
  intros H. unfold Github.truncateCode.
  destruct (Z.leb_spec (Z.of_nat (length (splitLines code))) maxLines); [reflexivity | lia].
Qed.

(** A longer one is cut to its first 20 lines, an omission marker, and its
    last 15 lines, whatever [maxLines] is. *)
Lemma truncateCode_long code maxLines :
  (maxLines < Z.of_nat (length (splitLines code)))%Z ->
  Github.truncateCode code maxLines
  = join nl (firstn 20 (splitLines code)) +:+ nl +:+ nl
    +:+ "  ... (" +:+ showZ (Z.of_nat (length (splitLines code)) - 35)
    +:+ " lines omitted) ..." +:+ nl +:+ nl
    +:+ join nl (sliceFrom (Z.of_nat (length (splitLines code)) - 15) (splitLines code)).
Proof.
  intros H. unfold Github.truncateCode.
  destruct (Z.leb_spec (Z.of_nat (length (splitLines code))) maxLines); [lia | reflexivity].
Qed.

(** C9, at a README of 21 lines. The excerpt is not its first 20 lines:
    it has 38 lines, the first 20 followed by a marker that counts -14
    omitted lines and by lines 7 to 21 again. *)
Theorem truncateCode_readme21 :
  length (splitLines readme21) = 21
  /\ Github.truncateCode readme21 20
     = join nl (firstn 20 (splitLines readme21)
                  ++ [EmptyString; "  ... (-14 lines omitted) ..."; EmptyString]
                  ++ skipn 6 (splitLines readme21))%list
  /\ length (splitLines (Github.truncateCode readme21 20)) = 38
  /\ Github.truncateCode readme21 20 <> join nl (firstn 20 (splitLines readme21)).
Proof. vm_compute. repeat split; discriminate. Qed.

End ExecutorFacts.

Section StringFacts.

Lemma append_nil (s : string) : EmptyString +:+ s = s.
Proof. reflexivity. Qed.

Lemma append_cons a (p s : string) : String a p +:+ s = String a (p +:+ s).
Proof. reflexivity. Qed.

Lemma append_assoc (a b c : string) : (a +:+ b) +:+ c = a +:+ (b +:+ c).
Proof.
  induction a as [| x a IH]; [reflexivity |].
  now rewrite !append_cons, IH.
Qed.

End StringFacts.

Section DetectorFacts.
Import Js Detector Scenarios.

Lemma stripPrefix_app p s : stripPrefix p (p ++ s) = Some s.
Proof.
  induction p as [| a p IH]; [now destruct s |].
  cbn [app stripPrefix]. now rewrite N.eqb_refl.
Qed.

Lemma stripPrefix_inv p : forall s r, stripPrefix p s = Some r -> s = p ++ r.
Proof.
  induction p as [| a p IH]; intros s r H.
  - destruct s; cbn in H; now injection H as <-.
  - destruct s as [| b s]; [discriminate |]. cbn [stripPrefix] in H.
    destruct (N.eqb_spec a b) as [<- | _]; [| discriminate].
    cbn [app]. f_equal. now apply IH.
Qed.

(** A greedy run stops at the first character that fails the test. *)
Lemma span_app_stop f run c rest :
  forallb f run = true -> f c = false ->
  span f (run ++ c :: rest) = (run, c :: rest).
Proof.
  intros Hrun Hc. induction run as [| a run IH]; cbn [app span].
  - now rewrite Hc.
  - cbn [forallb] in Hrun. apply andb_prop in Hrun as [Ha Hrun].
    now rewrite Ha, (IH Hrun).
Qed.

Lemma span_inv f : forall s run rest,
  span f s = (run, rest) ->
  s = run ++ rest /\ forallb f run = true
  /\ (forall c r, rest = c :: r -> f c = false).
Proof.
  induction s as [| a s IH]; intros run rest H; cbn [span] in H.
  - injection H as <- <-. repeat split. discriminate.
  - destruct (f a) eqn:Ha.
    + destruct (span f s) as [run' rest'] eqn:E. injection H as <- <-.
      destruct (IH run' rest' eq_refl) as (-> & Hall & Hstop).
      repeat split; [cbn [forallb]; now rewrite Ha | exact Hstop].
    + injection H as <- <-. repeat split.
      intros c r Hc. now injection Hc as <- _.
Qed.

Section Pattern.
Variable alnum : N -> bool.

(** The pattern matches a directive written out in full, and its groups
    are the name and the braces with what they enclose. *)
Lemma matchHere_directive name body post :
  name <> [] ->
  forallb (isWord alnum) name = true ->
  forallb notClose body = true ->
  matchHere alnum (directive name body ++ post) = Some (name, object body).
Proof.
  intros Hne Hname Hbody. unfold matchHere, directive, object.
  rewrite <- !app_assoc. rewrite stripPrefix_app.
  change (codes "|ARGS:" ++ codes "{" ++ body ++ codes "}" ++ post)
    with (124%N :: codes "ARGS:{" ++ body ++ 125%N :: post).
  rewrite (span_app_stop (isWord alnum) name) by (exact Hname || reflexivity).
  destruct name as [| c name]; [contradiction |].
  change (124%N :: codes "ARGS:{" ++ body ++ 125%N :: post)
    with (codes "|ARGS:{" ++ body ++ 125%N :: post).
  rewrite stripPrefix_app.
  rewrite (span_app_stop notClose body) by (exact Hbody || reflexivity).
  reflexivity.
Qed.

(** Conversely, a match is a directive written out in full. *)
Lemma matchHere_inv s name json :
  matchHere alnum s = Some (name, json) ->
  exists body post,
    s = directive name body ++ post
    /\ name <> [] /\ forallb (isWord alnum) name = true
    /\ forallb notClose body = true /\ json = object body.
Proof.
  unfold matchHere. intros H.
  destruct (stripPrefix (codes "TOOL:") s) as [s1 |] eqn:E1; [| discriminate].
  destruct (span (isWord alnum) s1) as [name' s2] eqn:E2.
  destruct name' as [| c name']; [discriminate |].
  destruct (stripPrefix (codes "|ARGS:{") s2) as [s3 |] eqn:E3; [| discriminate].
  destruct (span notClose s3) as [body s4] eqn:E4.
  destruct s4 as [| close post]; [discriminate |].
  injection H as <- <-.
  apply stripPrefix_inv in E1. apply stripPrefix_inv in E3.
  apply span_inv in E2 as (E2 & Hname & _).
  apply span_inv in E4 as (E4 & Hbody & Hclose).
  specialize (Hclose close post eq_refl). unfold notClose in Hclose.
  apply negb_false_iff in Hclose. apply N.eqb_eq in Hclose. subst close.
  exists body, post. repeat split; [| discriminate | exact Hname | exact Hbody].
  subst s s1 s2 s3. unfold directive, object. rewrite <- !app_assoc. reflexivity.
Qed.

(** Positions at which the pattern does not match are skipped. *)
Lemma search_skip pre rest :
  (forall k, k < length pre -> matchHere alnum (skipn k (pre ++ rest)) = None) ->
  search alnum (pre ++ rest) = search alnum rest.
Proof.
  induction pre as [| a pre IH]; intros Hnone; [reflexivity |].
  cbn [app search].
  pose proof (Hnone 0 ltac:(cbn; lia)) as H0. cbn [skipn app] in H0. rewrite H0.
  apply IH. intros k Hk. apply (Hnone (S k)). cbn. lia.
Qed.

Lemma search_none text :
  (forall k, matchHere alnum (skipn k text) = None) -> search alnum text = None.
Proof.
  induction text as [| a text IH]; intros Hnone; cbn [search];
    pose proof (Hnone 0) as H0; cbn [skipn] in H0; rewrite H0.
  - reflexivity.
  - apply IH. intros k. apply (Hnone (S k)).
Qed.

Lemma search_here text m :
  matchHere alnum text = Some m -> search alnum text = Some m.
Proof. intros H. destruct text; cbn [search]; now rewrite H. Qed.

(** A search that succeeds found the leftmost position where the pattern
    matches. *)
Lemma search_inv text m :
  search alnum text = Some m ->
  exists pre rest,
    text = pre ++ rest /\ matchHere alnum rest = Some m
    /\ forall k, k < length pre -> matchHere alnum (skipn k text) = None.
Proof.
  induction text as [| a text IH]; cbn [search]; intros H.
  - destruct (matchHere alnum []) eqn:E; [| discriminate]. injection H as ->.
    exists [], []. repeat split; [exact E | cbn; lia].
  - destruct (matchHere alnum (a :: text)) eqn:E.
    + injection H as ->. exists [], (a :: text).
      repeat split; [exact E | cbn; lia].
    + destruct (IH H) as (pre & rest & -> & Hm & Hnone).
      exists (a :: pre), rest. repeat split; [exact Hm |].
      intros [| k] Hk; [exact E |]. cbn [skipn app]. apply Hnone. cbn in Hk. lia.
Qed.

Lemma matchHere_no_marker s :
  stripPrefix (codes "TOOL:") s = None -> matchHere alnum s = None.
Proof. intros H. unfold matchHere. now rewrite H. Qed.

End Pattern.

(** C7 (amended). With the pattern [TOOL:(\w+)\|ARGS:(\{[^}]*\})], for
    every table of Unicode alphanumerics and every parser:
    (1) the detector yields the directive [(name, args)] exactly when the
    text is some prose, then [TOOL:<name>|ARGS:{<body>}], then anything,
    where the name is a non-empty run of word characters, the body holds
    no closing brace, [{<body>}] parses to [args], and the pattern matches
    at no earlier position (first match wins);
    (2) a text without the marker [TOOL:] yields none;
    (3) when the braces of the first match fail to parse the detector
    yields none, whatever follows, a well-formed directive included. *)
Theorem detect_first_directive (alnum : N -> bool) (Args : Type)
  (parseJson : Text -> option Args) :
  (forall text name args,
     detect alnum Args parseJson text = Some (name, args) <->
     exists pre body post,
       text = pre ++ directive name body ++ post
       /\ (forall k, k < length pre -> matchHere alnum (skipn k text) = None)
       /\ name <> []
       /\ forallb (isWord alnum) name = true
       /\ forallb notClose body = true
       /\ parseJson (object body) = Some args)
  /\ (forall text,
        (forall k, stripPrefix (codes "TOOL:") (skipn k text) = None) ->
        detect alnum Args parseJson text = None)
  /\ (forall pre name body post,
        (forall k, k < length pre ->
           matchHere alnum (skipn k (pre ++ directive name body ++ post)) = None) ->
        name <> [] ->
        forallb (isWord alnum) name = true ->
        forallb notClose body = true ->
        parseJson (object body) = None ->
        detect alnum Args parseJson (pre ++ directive name body ++ post) = None).
Proof.
  split; [| split].
  - intros text name args. split.
    + unfold detect. intros H.
      destruct (search alnum text) as [[name' json] |] eqn:E; [| discriminate].
      destruct (parseJson json) as [args' |] eqn:Ep; [| discriminate].
      injection H as -> ->.
      apply search_inv in E as (pre & rest & -> & Hm & Hnone).
      apply matchHere_inv in Hm as (body & post & -> & Hne & Hname & Hbody & ->).
      exists pre, body, post. repeat split; assumption.
    + intros (pre & body & post & -> & Hnone & Hne & Hname & Hbody & Hparse).
      unfold detect. rewrite (search_skip alnum pre) by exact Hnone.
      rewrite (search_here alnum _ _ (matchHere_directive alnum name body post
                                        Hne Hname Hbody)).
      now rewrite Hparse.
  - intros text Hnone. unfold detect.
    rewrite (search_none alnum text); [reflexivity |].
    intros k. apply matchHere_no_marker, Hnone.
  - intros pre name body post Hnone Hne Hname Hbody Hparse.
    unfold detect. rewrite (search_skip alnum pre) by exact Hnone.
    rewrite (search_here alnum _ _ (matchHere_directive alnum name body post
                                      Hne Hname Hbody)).
    now rewrite Hparse.
Qed.


(** C7, as the pattern has it. (1) The second group, [\{[^}]*\}], ends at
    the first closing brace. In [nestedText] the argument object holds an
    object, so the captured text stops inside it, its braces are not
    balanced, and every parser that accepts only texts with balanced
    braces (as every JSON parser does) rejects it: the detector yields no
    directive, although the object of the directive does parse.
    (2) In [twoDirectives] the one well-formed directive comes second: the
    first match is the directive before it, whose braces hold no JSON, and
    the detector yields none.
    (3) In [hyphenated] the name holds a character that [\w] does not
    match: the pattern matches nowhere, and the detector yields none
    although the object parses. *)
Lemma detect_directive_counterexample :
  (balanced nestedObject = true
   /\ forall (alnum : N -> bool) (Args : Type) (parseJson : Text -> option Args),
        (forall s x, parseJson s = Some x -> balanced s = true) ->
        detect alnum Args parseJson nestedText = None)
  /\ (forall (alnum : N -> bool) (Args : Type) (parseJson : Text -> option Args),
        parseJson (codes "{query}") = None ->
        detect alnum Args parseJson twoDirectives = None)
  /\ (forall (alnum : N -> bool) (Args : Type) (parseJson : Text -> option Args),
        detect alnum Args parseJson hyphenated = None)
  /\ (exists parseJson : Text -> option unit,
        parseJson nestedObject = Some tt
        /\ parseJson (object reactBody) = Some tt
        /\ parseJson (codes "{query}") = None
        /\ (forall s x, parseJson s = Some x -> balanced s = true)
        /\ detect (fun _ => false) unit parseJson nestedText = None
        /\ detect (fun _ => false) unit parseJson twoDirectives = None
        /\ detect (fun _ => false) unit parseJson hyphenated = None).
Proof.
  assert (Hnested : forall (alnum : N -> bool) (Args : Type)
                      (parseJson : Text -> option Args),
             (forall s x, parseJson s = Some x -> balanced s = true) ->
             detect alnum Args parseJson nestedText = None).
  { intros alnum Args parseJson Hbal. unfold detect.
    replace (search alnum nestedText)
      with (Some (codes "github_search",
                  codes ("{" +:+ quoted "query" +:+ ":{" +:+ quoted "lang" +:+ ":"
                         +:+ quoted "ts" +:+ "}")))
      by (vm_compute; reflexivity).
    match goal with |- context [parseJson ?t] => destruct (parseJson t) eqn:E end;
      [| reflexivity].
    apply Hbal in E. vm_compute in E. discriminate. }
  assert (Htwo : forall (alnum : N -> bool) (Args : Type)
                   (parseJson : Text -> option Args),
             parseJson (codes "{query}") = None ->
             detect alnum Args parseJson twoDirectives = None).
  { intros alnum Args parseJson Hparse. unfold detect.
    replace (search alnum twoDirectives)
      with (Some (codes "github_search", codes "{query}"))
      by (vm_compute; reflexivity).
    now rewrite Hparse. }
  assert (Hhyphen : forall (alnum : N -> bool) (Args : Type)
                      (parseJson : Text -> option Args),
             detect alnum Args parseJson hyphenated = None).
  { intros alnum Args parseJson. unfold detect.
    replace (search alnum hyphenated) with (@None (Text * Text))
      by (vm_compute; reflexivity).
    reflexivity. }
  split; [split; [vm_compute; reflexivity | exact Hnested] |].
  split; [exact Htwo |]. split; [exact Hhyphen |].
  exists (fun s => if decide (s = nestedObject) then Some tt
                   else if decide (s = object reactBody) then Some tt
                   else None).
  assert (Hbal : forall s x,
             (if decide (s = nestedObject) then Some tt
              else if decide (s = object reactBody) then Some tt
              else None) = Some x -> balanced s = true).
  { intros s x. destruct (decide (s = nestedObject)) as [-> | _];
      [intros _; vm_compute; reflexivity |].
    destruct (decide (s = object reactBody)) as [-> | _];
      [intros _; vm_compute; reflexivity | discriminate]. }
  split; [vm_compute; reflexivity |]. split; [vm_compute; reflexivity |].
  split; [vm_compute; reflexivity |]. split; [exact Hbal |].
  split; [apply Hnested; exact Hbal |].
  split; [apply Htwo; vm_compute; reflexivity | apply Hhyphen].
Qed.

Lemma detect_first_directive_witness :
  detect (fun _ => false) Text exampleParser
    (codes "Let me check that for you. "
     ++ directive (codes "github_search") reactBody ++ [])
  = Some (codes "github_search", object reactBody).
Proof.
  apply (proj1 (detect_first_directive (fun _ => false) Text exampleParser)).
  exists (codes "Let me check that for you. "), reactBody, [].
  split; [reflexivity |]. split.
  - intros k Hk.
    do 27 (destruct k as [| k]; [vm_compute; reflexivity |]).
    cbn in Hk. lia.
  - repeat split; try reflexivity. discriminate.
Defined.

End DetectorFacts.

Section DispatchFacts.
Import Js Net Dispatch Scenarios.

Variable githubSearch : JValue -> M CallToolResult.
Variable getCalendarSlots : JValue -> M CallToolResult.
Variable sendDiscordAlert : JValue -> JValue -> JValue -> M CallToolResult.
Variable nonNumberLe0 : JValue -> bool.

(** [github_search] without [query], and [get_calendar_slots] without
    [duration], are answered by the handler itself: the result is the
    error text that names the key, whatever the executors are, and the
    trace of requests is unchanged. *)
Lemma callTool_missing_query args net tr :
  prop args "query" = None ->
  callTool githubSearch getCalendarSlots sendDiscordAlert nonNumberLe0
    "github_search" args net tr
  = (Returned (mkResult [Text "ERROR: 'query' argument is required."] (Some true)), tr).
Proof. intros H. unfold callTool. cbn [String.eqb Ascii.eqb]. now rewrite H. Qed.

Lemma callTool_missing_duration args net tr :
  prop args "duration" = None ->
  callTool githubSearch getCalendarSlots sendDiscordAlert nonNumberLe0
    "get_calendar_slots" args net tr
  = (Returned (mkResult
       [Text "ERROR: 'duration' argument must be a positive number (minutes)."]
       (Some true)), tr).
Proof. intros H. unfold callTool. now rewrite H. Qed.

(** [send_discord_alert] has no such check: whatever keys are missing, the
    handler calls the executor, with defaults in their place. *)
Lemma callTool_discord_defaults args :
  callTool githubSearch getCalendarSlots sendDiscordAlert nonNumberLe0
    "send_discord_alert" args
  = sendDiscordAlert
      (orElse (prop args "visitor_name") (JStr "Unknown"))
      (orElse (prop args "company") (JStr "Unknown"))
      (orElse (prop args "message") (JStr EmptyString)).
Proof. reflexivity. Qed.

(** C5, at [send_discord_alert] with an empty argument object. [TOOLS]
    declares [visitor_name], [company] and [message] required, yet the
    handler fills in defaults and calls the executor: the notification is
    posted and the result is the success text, not an error naming a
    missing key. *)
Theorem callTool_discord_missing_keys (nowLocale nowISO : string) :
  In (mkTool "send_discord_alert" ["visitor_name"; "company"; "message"]) TOOLS
  /\ prop (Some ∅) "visitor_name" = None
  /\ callTool githubSearch getCalendarSlots (discordExecutor nowLocale nowISO)
       nonNumberLe0 "send_discord_alert" (Some ∅) acceptingNet []
     = (Returned (mkResult
          [Text ("✅ Discord alert sent successfully. "
                 +:+ "Vageshwar has been notified about Unknown from Unknown.")]
          None),
        [POST (Webhook "https://discord.example/api/webhooks/1")
           (Discord.buildPayload nowLocale nowISO "Unknown" "Unknown" EmptyString)]).
Proof.
  split; [cbn; tauto |]. split; [reflexivity |].
  vm_compute. reflexivity.
Qed.

End DispatchFacts.

Section SlotFacts.
Import Calendar SlotOrder.
Local Open Scope Z_scope.

(** *** Order of the output *)

Lemma StronglySorted_app {A} (R : A -> A -> Prop) l1 l2 :
  StronglySorted R l1 -> StronglySorted R l2 ->
  (forall x y, In x l1 -> In y l2 -> R x y) ->
  StronglySorted R (l1 ++ l2).
Proof.
  induction l1 as [| a l1 IH]; intros H1 H2 Hcross; cbn [app]; [exact H2 |].
  apply StronglySorted_inv in H1 as [H1 Ha]. constructor.
  - apply IH; [exact H1 | exact H2 |]. intros x y Hx Hy. apply Hcross; [now right | exact Hy].
  - rewrite List.Forall_forall in *. intros z Hz.
    apply in_app_or in Hz as [Hz | Hz]; [now apply Ha |].
    apply Hcross; [now left | exact Hz].
Qed.

Lemma emitLoop_sorted fuel : forall t limit d,
  StronglySorted startsBefore (emitLoop fuel t limit d []).
Proof.
  induction fuel as [| fuel IH]; intros t limit d; cbn [emitLoop]; [constructor |].
  destruct (t + d <=? limit); [| constructor].
  rewrite emitLoop_acc. cbn [app]. constructor; [apply IH |].
  rewrite List.Forall_forall. intros s Hs. apply emitLoop_In in Hs.
  unfold startsBefore. cbn [start]. pose proof STEP_pos. lia.
Qed.

Lemma sweepFrom_sorted d we l :
  0 < d -> Forall wellFormed l ->
  forall c, StronglySorted startsBefore (sweepFrom d we c l).
Proof.
  intros Hd. induction l as [| b r IH]; intros Hwf c; cbn [sweepFrom].
  - apply emitLoop_sorted.
  - apply Forall_inv in Hwf as Hb. apply Forall_inv_tail in Hwf as Hr.
    unfold wellFormed in Hb.
    apply StronglySorted_app; [apply emitLoop_sorted | now apply IH |].
    intros x y Hx Hy. apply emitSlots_In in Hx.
    assert (Hc : Z.max c (end_ b) <= start y).
    { clear -Hy. revert Hy. generalize (Z.max c (end_ b)). clear c.
      induction r as [| b' r IH']; intros c Hy; cbn [sweepFrom] in Hy.
      - apply emitSlots_In in Hy. lia.
      - apply in_app_or in Hy as [Hy | Hy]; [apply emitSlots_In in Hy; lia |].
        apply IH' in Hy. lia. }
    unfold startsBefore. lia.
Qed.

(** X1. For a duration that is a positive whole number of milliseconds
    and events that do not end before they start, the slots come back in
    strictly increasing order of their start: chronological, and no slot
    twice. ([computeFreeSlots_below_resolution] has a positive duration
    that is not a whole number of milliseconds, and a slot twice.) *)
Theorem computeFreeSlots_chronological busy ws we d :
  0 < d -> Forall wellFormed busy ->
  StronglySorted startsBefore (computeFreeSlots busy ws we d).
Proof.
  intros Hd Hwf. rewrite computeFreeSlots_sweep. apply sweepFrom_sorted; [exact Hd |].
  rewrite List.Forall_forall in *. intros b Hb. apply Hwf. now apply sortByStart_In.
Qed.

Lemma computeFreeSlots_chronological_witness :
  StronglySorted startsBefore
    (computeFreeSlots
       [mkInterval (hm 12 0) (hm 13 0); mkInterval (hm 10 0) (hm 10 30)]
       (hm 9 0) (hm 14 0) (hm 0 45)).
Proof.
  apply computeFreeSlots_chronological.
  - reflexivity.
  - repeat constructor; vm_compute; discriminate.
Defined.

(** *** The empty calendar *)




(** *** A fully booked window *)

(** X3. When every event starts at or before the window's end and one
    event covers the whole window, no slot is returned, for any positive
    duration. *)
Theorem computeFreeSlots_fully_booked busy ws we d b :
  0 < d ->
  (forall x, In x busy -> start x <= we) ->
  In b busy -> start b <= ws -> we <= end_ b ->
  computeFreeSlots busy ws we d = [].
Proof.
  intros Hd Hstarts Hb Hbs Hbe.
  destruct (computeFreeSlots busy ws we d) as [| s rest] eqn:E; [reflexivity |].
  exfalso. assert (Hs : In s (computeFreeSlots busy ws we d)) by (rewrite E; now left).
  rewrite computeFreeSlots_sweep in Hs.
  pose proof (sweepFrom_duration _ _ _ _ _ Hs) as Hdur.
  assert (Hwin : ws <= start s /\ end_ s <= we).
  { apply (sweepFrom_window d we (sortByStart busy) ws); [| exact Hs].
    intros x Hx. apply Hstarts. now apply sortByStart_In. }
  destruct (sweepFrom_disjoint d we _ ws (sortByStart_sorted busy) s Hs) as [_ Hdis].
  apply (Hdis b); [now apply sortByStart_In |]. unfold overlaps. lia.
Qed.

Lemma computeFreeSlots_fully_booked_witness :
  computeFreeSlots
    [mkInterval (hm 9 30) (hm 10 0); mkInterval (hm 8 0) (hm 12 0)]
    (hm 9 0) (hm 11 0) (hm 0 30) = [].
Proof.
  apply (computeFreeSlots_fully_booked _ _ _ _ (mkInterval (hm 8 0) (hm 12 0))).
  - reflexivity.
  - intros x [<- | [<- | []]]; vm_compute; discriminate.
  - cbn. tauto.
  - vm_compute. discriminate.
  - vm_compute. discriminate.
Defined.

(** *** The order of the input *)

Lemma insertByStart_tieSwap a l l' :
  tieSwap l l' -> tieSwap (insertByStart a l) (insertByStart a l').
Proof.
  induction 1 as [l | x l l' H IH | x y l Hxy | l1 l2 l3 H1 IH1 H2 IH2].
  - apply tieSwap_refl.
  - cbn [insertByStart]. destruct (start a <=? start x).
    + now apply tieSwap_skip, tieSwap_skip.
    + now apply tieSwap_skip.
  - cbn [insertByStart]. rewrite Hxy.
    destruct (start a <=? start y).
    + now apply tieSwap_skip, tieSwap_swap.
    + now apply tieSwap_swap.
  - eapply tieSwap_trans; eassumption.
Qed.

Lemma insertByStart_comm x y l :
  tieSwap (insertByStart x (insertByStart y l)) (insertByStart y (insertByStart x l)).
Proof.
  induction l as [| a l IH]; cbn [insertByStart].
  - destruct (Z.leb_spec (start x) (start y)), (Z.leb_spec (start y) (start x));
      try apply tieSwap_refl; [apply tieSwap_swap | ]; lia.
  - destruct (Z.leb_spec (start y) (start a)), (Z.leb_spec (start x) (start a));
      cbn [insertByStart].
    + destruct (Z.leb_spec (start x) (start y)), (Z.leb_spec (start y) (start x));
        repeat match goal with
               | |- context [start ?u <=? start ?v] =>
                   destruct (Z.leb_spec (start u) (start v)); try lia
               end;
        try apply tieSwap_refl; apply tieSwap_swap; lia.
    + repeat match goal with
             | |- context [start ?u <=? start ?v] =>
                 destruct (Z.leb_spec (start u) (start v)); try lia
             end.
      apply tieSwap_refl.
    + repeat match goal with
             | |- context [start ?u <=? start ?v] =>
                 destruct (Z.leb_spec (start u) (start v)); try lia
             end.
      apply tieSwap_refl.
    + repeat match goal with
             | |- context [start ?u <=? start ?v] =>
                 destruct (Z.leb_spec (start u) (start v)); try lia
             end.
      now apply tieSwap_skip.
Qed.

Lemma sortByStart_tieSwap l l' :
  Permutation l l' -> tieSwap (sortByStart l) (sortByStart l').
Proof.
  induction 1 as [| x l l' H IH | x y l | l1 l2 l3 H1 IH1 H2 IH2];
    cbn [sortByStart fold_right].
  - apply tieSwap_refl.
  - now apply insertByStart_tieSwap.
  - apply insertByStart_comm.
  - eapply tieSwap_trans; eassumption.
Qed.

Lemma tieSwap_sweepFrom d we l l' :
  0 < d -> tieSwap l l' -> Forall wellFormed l ->
  Forall wellFormed l' /\ forall c, sweepFrom d we c l = sweepFrom d we c l'.
Proof.
  intros Hd. induction 1 as [l | x l l' H IH | x y l Hxy | l1 l2 l3 H1 IH1 H2 IH2];
    intros Hwf.
  - now split.
  - apply Forall_inv in Hwf as Hx. apply Forall_inv_tail in Hwf as Hl.
    destruct (IH Hl) as [Hl' Heq]. split; [now constructor |].
    intros c. cbn [sweepFrom]. now rewrite Heq.
  - apply Forall_inv in Hwf as Hx. apply Forall_inv_tail in Hwf as Hyl.
    apply Forall_inv in Hyl as Hy. apply Forall_inv_tail in Hyl as Hl.
    split; [now repeat constructor |].
    unfold wellFormed in Hx, Hy. intros c. cbn [sweepFrom].
    rewrite (emitSlots_nil (Z.max c (end_ x))) by lia.
    rewrite (emitSlots_nil (Z.max c (end_ y))) by lia.
    cbn [app]. rewrite Hxy. f_equal. f_equal. lia.
  - destruct (IH1 Hwf) as [Hwf2 Heq1]. destruct (IH2 Hwf2) as [Hwf3 Heq2].
    split; [exact Hwf3 |]. intros c. now rewrite Heq1.
Qed.

(** X4. For a positive duration and events that do not end before they
    start, the result does not depend on the order in which the busy list
    is given. *)
Theorem computeFreeSlots_order_independent busy busy' ws we d :
  0 < d -> Forall wellFormed busy -> Permutation busy busy' ->
  computeFreeSlots busy ws we d = computeFreeSlots busy' ws we d.
Proof.
  intros Hd Hwf Hperm. rewrite !computeFreeSlots_sweep.
  apply (tieSwap_sweepFrom d we _ _ Hd (sortByStart_tieSwap _ _ Hperm)).
  rewrite List.Forall_forall in *. intros b Hb. apply Hwf. now apply sortByStart_In.
Qed.

Lemma computeFreeSlots_order_independent_witness :
  computeFreeSlots
    [mkInterval (hm 10 0) (hm 11 0); mkInterval (hm 10 0) (hm 10 30);
     mkInterval (hm 12 0) (hm 13 0)]
    (hm 9 0) (hm 14 0) (hm 0 30)
  = computeFreeSlots
      [mkInterval (hm 10 0) (hm 10 30); mkInterval (hm 12 0) (hm 13 0);
       mkInterval (hm 10 0) (hm 11 0)]
      (hm 9 0) (hm 14 0) (hm 0 30).
Proof.
  apply computeFreeSlots_order_independent.
  - reflexivity.
  - repeat constructor; vm_compute; discriminate.
  - apply perm_swap_first_last || (eapply perm_trans; [apply perm_swap |]; apply perm_skip, perm_swap).
Defined.

End SlotFacts.

Section CalendarToolFacts.
Import Js Net Calendar CalendarTool CalendarScenarios Trace.

(** *** The pick of at most six suggestions *)

(** The unrolled loop pushes the elements at [i], [i + step], ..., until
    six are there or the index leaves the list; fuel beyond what is left
    to six changes nothing. *)
Lemma pickLoop_everyNth fuel : forall ws step i sugg,
  6 - length sugg <= fuel ->
  pickLoop fuel ws step i sugg = sugg ++ everyNth (6 - length sugg) ws step i.
Proof.
  induction fuel as [| fuel IH]; intros ws step i sugg Hfuel; cbn [pickLoop].
  - replace (6 - length sugg) with 0 by lia. cbn. now rewrite app_nil_r.
  - destruct (Nat.ltb_spec (length sugg) 6) as [Hlt | Hge].
    + replace (6 - length sugg) with (S (6 - S (length sugg))) by lia.
      cbn [everyNth].
      destruct (Nat.ltb_spec i (length ws)) as [Hi | Hi]; cbn [andb].
      * destruct (nth_error ws i) as [slot |] eqn:E.
        -- rewrite IH by (rewrite length_app; cbn; lia).
           rewrite length_app. cbn [length].
           replace (length sugg + 1) with (S (length sugg)) by lia.
           now rewrite <- app_assoc.
        -- now rewrite app_nil_r.
      * apply nth_error_None in Hi. rewrite Hi. now rewrite app_nil_r.
    + rewrite andb_false_r. replace (6 - length sugg) with 0 by lia.
      cbn. now rewrite app_nil_r.
Qed.

Lemma pickLoop_fuel fuel ws step i sugg :
  6 - length sugg <= fuel ->
  pickLoop fuel ws step i sugg = pickLoop (6 - length sugg) ws step i sugg.
Proof.
  intros H. rewrite !pickLoop_everyNth by lia. reflexivity.
Qed.

Lemma pickSuggestions_everyNth ws :
  pickSuggestions ws = everyNth 6 ws (Nat.max 1 (length ws / 6)) 0.
Proof.
  unfold pickSuggestions. cbn zeta. now rewrite pickLoop_everyNth by (cbn; lia).
Qed.

Lemma everyNth_length_valid l step c : forall i,
  c = 0 \/ i + (c - 1) * step < length l ->
  length (everyNth c l step i) = c.
Proof.
  induction c as [| c IH]; intros i Hvalid; [reflexivity |]. cbn [everyNth].
  destruct Hvalid as [Hc | Hvalid]; [discriminate |].
  destruct (nth_error l i) as [x |] eqn:E.
  - cbn [length]. f_equal. apply IH.
    destruct c as [| c']; [now left | right]. nia.
  - apply nth_error_None in E. nia.
Qed.

Lemma everyNth_step1 l c : forall i,
  everyNth c l 1 i = firstn c (skipn i l).
Proof.
  induction c as [| c IH]; intros i; [reflexivity |]. cbn [everyNth].
  destruct (nth_error l i) as [x |] eqn:E.
  - rewrite IH. replace (i + 1) with (S i) by lia.
    clear IH. revert i E. induction l as [| y l IHl]; intros [| i] E; try discriminate.
    + cbn in E. injection E as ->. reflexivity.
    + cbn in E. cbn [skipn]. now apply IHl.
  - apply nth_error_None in E. now rewrite skipn_all2 by exact E.
Qed.

Lemma everyNth_sublist l step c : forall i,
  1 <= step -> sublist (everyNth c l step i) (skipn i l).
Proof.
  induction c as [| c IH]; intros i Hstep; [apply sublist_nil_l |]. cbn [everyNth].
  destruct (nth_error l i) as [x |] eqn:E; [| apply sublist_nil_l].
  assert (Hdrop : skipn i l = x :: skipn (S i) l).
  { clear -E. revert i E. induction l as [| y l IHl]; intros [| i] E; try discriminate.
    - cbn in E. now injection E as ->.
    - cbn in E. cbn [skipn]. now apply IHl. }
  rewrite Hdrop. apply sublist_skip.
  etransitivity; [apply (IH (i + step) Hstep) |].
  replace (i + step) with ((step - 1) + S i) by lia.
  rewrite <- skipn_skipn. apply sublist_drop.
Qed.

Lemma pickSuggestions_length (ws : list Interval) :
  length (pickSuggestions ws) = Nat.min 6 (length ws).
Proof.
  rewrite pickSuggestions_everyNth.
  destruct (Nat.lt_ge_cases (length ws) 6) as [Hlt | Hge].
  - replace (length ws / 6) with 0 by (symmetry; now apply Nat.div_small).
    cbn [Nat.max]. rewrite everyNth_step1. change (skipn 0 ws) with ws.
    rewrite firstn_all2 by lia. lia.
  - pose proof (Nat.div_mod_eq (length ws) 6) as Hdm.
    pose proof (Nat.mod_upper_bound (length ws) 6 ltac:(lia)) as Hmod.
    assert (1 <= length ws / 6) by lia.
    replace (Nat.max 1 (length ws / 6)) with (length ws / 6) by lia.
    rewrite everyNth_length_valid; [lia | right; lia].
Qed.

Lemma pickSuggestions_sublist (ws : list Interval) :
  sublist (pickSuggestions ws) ws.
Proof.
  rewrite pickSuggestions_everyNth. apply (everyNth_sublist ws _ 6 0). lia.
Qed.

(** X5. The suggestions are [min(6, n)] of the [n] working-hours slots:
    all of them when there are fewer than six, else exactly six; they keep
    the order of the candidates and start with the first one. *)
Theorem pickSuggestions_six (ws : list Interval) :
  length (pickSuggestions ws) = Nat.min 6 (length ws)
  /\ sublist (pickSuggestions ws) ws
  /\ head (pickSuggestions ws) = head ws.
Proof.
  split; [apply pickSuggestions_length |]. split; [apply pickSuggestions_sublist |].
  rewrite pickSuggestions_everyNth. destruct ws as [| x ws]; reflexivity.
Qed.

(** *** From events to suggestions *)

Lemma buildBusy_In events b :
  In b (buildBusy events) <->
  exists e, In e events /\ ev_start e = Some (start b) /\ ev_end e = Some (end_ b).
Proof.
  induction events as [| e rest IH]; cbn [buildBusy].
  - split; [intros [] | intros (e & [] & _)].
  - assert (Hcons :
      (exists e', In e' (e :: rest)
                  /\ ev_start e' = Some (start b) /\ ev_end e' = Some (end_ b))
      <-> (ev_start e = Some (start b) /\ ev_end e = Some (end_ b))
          \/ In b (buildBusy rest)).
    { rewrite IH. split.
      - intros (e' & [<- | He'] & H1 & H2); [left; auto | right; exists e'; auto].
      - intros [[H1 H2] | (e' & He' & H1 & H2)];
          [exists e; cbn; auto | exists e'; cbn; auto]. }
    rewrite Hcons.
    destruct (ev_start e) as [s |], (ev_end e) as [t |]; cbn [In].
    + split; (intros [H | H]; [left | right; exact H]).
      * subst b. cbn. auto.
      * destruct H as [H1 H2]. destruct b. cbn in *. congruence.
    + split; [intros H; now right | intros [[_ H] | H]; [discriminate | exact H]].
    + split; [intros H; now right | intros [[H _] | H]; [discriminate | exact H]].
    + split; [intros H; now right | intros [[H _] | H]; [discriminate | exact H]].
Qed.

(** X6. Every suggested slot, for a duration that is a positive whole
    number of milliseconds: starts in the working-hours band (IST hour 9
    to 17), spans exactly the duration, starts no earlier than now, and
    overlaps no timed event of the listing. *)
Theorem suggest_safe (istHour : Z -> Z) (now : Z) (events : list Event)
  (durationMs : Z) (s : Interval) :
  (0 < durationMs)%Z ->
  In s (suggest istHour now events durationMs) ->
  (9 <= istHour (start s) < 18)%Z
  /\ (end_ s - start s = durationMs)%Z
  /\ (now <= start s)%Z
  /\ forall e st en,
       In e events -> ev_start e = Some st -> ev_end e = Some en ->
       ~ overlaps s (mkInterval st en).
Proof.
  intros Hd Hin. unfold suggest in Hin. cbn zeta in Hin.
  match type of Hin with
  | In _ (pickSuggestions ?ws) => pose proof (pickSuggestions_sublist ws) as Hsub
  end.
  apply list_elem_of_In in Hin. apply (fun H => elem_of_sublist _ _ _ H Hsub) in Hin.
  apply list_elem_of_In in Hin. apply filter_In in Hin as [Hslot Hwork].
  rewrite computeFreeSlots_sweep in Hslot.
  pose proof (sweepFrom_duration _ _ _ _ _ Hslot) as Hdur.
  destruct (sweepFrom_disjoint _ _ _ now (sortByStart_sorted _) s Hslot) as [Hnow Hdis].
  unfold inWorkingHours in Hwork. cbn zeta in Hwork.
  apply andb_prop in Hwork as [H9 H18].
  apply Z.leb_le in H9. apply Z.ltb_lt in H18.
  repeat split; try assumption.
  intros e st en He Hst Hen. apply Hdis. apply sortByStart_In.
  apply buildBusy_In. exists e. cbn. auto.
Qed.

Lemma suggest_safe_witness :
  (9 <= istHourOf (start (mkInterval (hm 3 30) (hm 4 0))) < 18)%Z
  /\ (end_ (mkInterval (hm 3 30) (hm 4 0)) - start (mkInterval (hm 3 30) (hm 4 0))
      = hm 0 30)%Z
  /\ (0 <= start (mkInterval (hm 3 30) (hm 4 0)))%Z
  /\ forall e st en,
       In e oneMeeting -> ev_start e = Some st -> ev_end e = Some en ->
       ~ overlaps (mkInterval (hm 3 30) (hm 4 0)) (mkInterval st en).
Proof.
  apply (suggest_safe istHourOf 0 oneMeeting (hm 0 30)).
  - reflexivity.
  - vm_compute. tauto.
Defined.

(** *** All-day events *)

Lemma buildBusy_app events1 events2 :
  buildBusy (events1 ++ events2) = buildBusy events1 ++ buildBusy events2.
Proof.
  induction events1 as [| e rest IH]; [reflexivity |]. cbn [app buildBusy].
  destruct (ev_start e), (ev_end e); cbn [app]; now rewrite IH.
Qed.

(** X7. An event without a start or an end [dateTime] (an all-day event)
    never blocks a slot: the suggestions are the same with the event and
    without it. *)
Theorem suggest_skips_all_day (istHour : Z -> Z) (now : Z)
  (events1 events2 : list Event) (e : Event) (durationMs : Z) :
  ev_start e = None \/ ev_end e = None ->
  suggest istHour now (events1 ++ e :: events2) durationMs
  = suggest istHour now (events1 ++ events2) durationMs.
Proof.
  intros Hallday. unfold suggest. rewrite !buildBusy_app. cbn [buildBusy].
  destruct Hallday as [-> | ->]; [reflexivity |].
  destruct (ev_start e); reflexivity.
Qed.

Lemma suggest_skips_all_day_witness :
  suggest istHourOf 0 ([mkEvent (Some (hm 4 0)) (Some (hm 5 0))]
                         ++ mkEvent None None :: []) (hm 0 30)
  = suggest istHourOf 0 ([mkEvent (Some (hm 4 0)) (Some (hm 5 0))] ++ []) (hm 0 30).
Proof.
  apply suggest_skips_all_day. left. reflexivity.
Defined.

(** *** The tool *)

Section Executor.

Variable istHour : Z -> Z.
Variable dayLabel timeLabel : Z -> string.
Variable K : Type.
Variable jsonParse : string -> Outcome K.
Variable resolve : string -> string.


(** X8. Without [GOOGLE_CALENDAR_ID], or without [GOOGLE_KEY_PATH] (also
    when the key is given in [GOOGLE_KEY_CONTENT], which
    [getCalendarClient] would accept), [getCalendarSlots] returns the
    configuration error with [isError: true] and leaves the state as it
    was: no client is built and the calendar is not asked. *)
Theorem getCalendarSlots_unconfigured
  (env files : gmap string string) (now : Z)
  (eventsList : K -> list (string * Z * Z) -> string * Z * Z
                -> Outcome (option (list Event)))
  (durationMinutes : Z) (st : CalState K) :
  envSet (env !! "GOOGLE_CALENDAR_ID") = false
  \/ envSet (env !! "GOOGLE_KEY_PATH") = false ->
  getCalendarSlots istHour dayLabel timeLabel K jsonParse resolve env files now
    eventsList durationMinutes st
  = (mkResult [Text "ERROR: GOOGLE_CALENDAR_ID or GOOGLE_KEY_PATH not set."]
       (Some true), st).
Proof.
  intros [H | H]; unfold getCalendarSlots; rewrite H; cbn [negb orb];
    [reflexivity | now rewrite orb_true_r].
Qed.


(** X10. The client is built once: after a call that returns a client,
    that client is cached, and every later call returns it without looking
    at the environment or the key file, even if they have changed. A call
    that fails caches nothing. *)
Theorem getCalendarClient_cached
  (env files : gmap string string) (cached cached' : option K) :
  (forall client,
     getCalendarClient K jsonParse resolve env files cached = (Returned client, cached') ->
     cached' = Some client
     /\ forall env' files',
          getCalendarClient K jsonParse resolve env' files' cached'
          = (Returned client, cached'))
  /\ (forall e,
        getCalendarClient K jsonParse resolve env files cached = (Thrown e, cached') ->
        cached = None /\ cached' = None).
Proof.
  unfold getCalendarClient, clientFrom. split.
  - intros client H.
    assert (Hc : cached' = Some client).
    { destruct cached as [c |]; [congruence |].
      destruct (envSet (env !! "GOOGLE_KEY_CONTENT"));
        [| destruct (envSet (env !! "GOOGLE_KEY_PATH"));
           [destruct (files !! resolve (envStr (env !! "GOOGLE_KEY_PATH"))) |]];
        try destruct (jsonParse _); congruence. }
    split; [exact Hc |]. intros env' files'. now rewrite Hc.
  - intros e H. destruct cached as [c |]; [discriminate |].
    split; [reflexivity |].
    destruct (envSet (env !! "GOOGLE_KEY_CONTENT"));
      [| destruct (envSet (env !! "GOOGLE_KEY_PATH"));
         [destruct (files !! resolve (envStr (env !! "GOOGLE_KEY_PATH"))) |]];
      try destruct (jsonParse _); congruence.
Qed.

(** X11. [GOOGLE_KEY_CONTENT] comes first: when it is set, the key is
    parsed from it, and neither [GOOGLE_KEY_PATH] nor any file is
    consulted. *)
Theorem getCalendarClient_content_first
  (env files files' : gmap string string) (keyPath : string) :
  envSet (env !! "GOOGLE_KEY_CONTENT") = true ->
  getCalendarClient K jsonParse resolve (<["GOOGLE_KEY_PATH" := keyPath]> env) files' None
  = getCalendarClient K jsonParse resolve env files None
  /\ fst (getCalendarClient K jsonParse resolve env files None)
     = jsonParse (envStr (env !! "GOOGLE_KEY_CONTENT")).
Proof.
  intros Hcontent. unfold getCalendarClient, clientFrom.
  rewrite lookup_insert_ne by discriminate. rewrite Hcontent.
  split; [reflexivity |]. now destruct (jsonParse _).
Qed.



End Executor.

Lemma getCalendarSlots_unconfigured_witness :
  getCalendarSlots istHourOf labelOf labelOf string parseKey id contentEnv ∅ 0
    (calendarOf oneMeeting) 30 (mkCalState None [])
  = (mkResult [Text "ERROR: GOOGLE_CALENDAR_ID or GOOGLE_KEY_PATH not set."]
       (Some true), mkCalState None []).
Proof.
  apply getCalendarSlots_unconfigured. right. reflexivity.
Defined.


Lemma getCalendarClient_content_first_witness :
  getCalendarClient string parseKey id
    (<["GOOGLE_KEY_PATH" := "./missing.json"]> contentEnv) keyFiles None
  = getCalendarClient string parseKey id contentEnv ∅ None
  /\ fst (getCalendarClient string parseKey id contentEnv ∅ None)
     = parseKey (envStr (contentEnv !! "GOOGLE_KEY_CONTENT")).
Proof.
  apply getCalendarClient_content_first. reflexivity.
Defined.


End CalendarToolFacts.

Section TraceFacts.
Import Js Net Trace.

Variable P : Request -> Prop.

Lemma extendsBy_refl n tr : extendsBy P n tr tr.
Proof. exists []. rewrite app_nil_r. repeat split; [cbn; lia | constructor]. Qed.

Lemma extendsBy_trans n m tr tr' tr'' :
  extendsBy P n tr tr' -> extendsBy P m tr' tr'' -> extendsBy P (n + m) tr tr''.
Proof.
  intros (a1 & -> & H1 & F1) (a2 & -> & H2 & F2). exists (a1 ++ a2)%list.
  rewrite app_assoc, length_app. repeat split; [lia | now apply Forall_app].
Qed.

Lemma extendsBy_weaken n m tr tr' :
  n <= m -> extendsBy P n tr tr' -> extendsBy P m tr tr'.
Proof. intros Hle (a & -> & H & F). exists a. repeat split; [lia | exact F]. Qed.

Lemma bounded_weaken {A} n m (c : M A) : n <= m -> bounded P n c -> bounded P m c.
Proof. intros Hle H net tr. eapply extendsBy_weaken; [exact Hle | apply H]. Qed.

Lemma bounded_ret {A} (a : A) n : bounded P n (ret a).
Proof. intros net tr. apply extendsBy_refl. Qed.

Lemma bounded_throw {A} e n : bounded P n (throw (A := A) e).
Proof. intros net tr. apply extendsBy_refl. Qed.

Lemma bounded_fetch req : P req -> bounded P 1 (fetch req).
Proof.
  intros Hreq net tr. unfold fetch.
  destruct (net tr req); cbn [snd]; exists [req]; repeat split;
    try (cbn; lia); now repeat constructor.
Qed.

Lemma bounded_bind {A B} n k (c : M A) (f : A -> M B) :
  bounded P n c -> (forall a, bounded P k (f a)) -> bounded P (n + k) (bind c f).
Proof.
  intros Hc Hf net tr. unfold bind. specialize (Hc net tr).
  destruct (c net tr) as [[a | e] tr']; cbn [snd] in *.
  - eapply extendsBy_trans; [exact Hc | apply Hf].
  - eapply extendsBy_weaken; [| exact Hc]. lia.
Qed.

Lemma bounded_tryCatch {A} n k (c : M A) (h : string -> M A) :
  bounded P n c -> (forall e, bounded P k (h e)) -> bounded P (n + k) (tryCatch c h).
Proof.
  intros Hc Hh net tr. unfold tryCatch. specialize (Hc net tr).
  destruct (c net tr) as [[a | e] tr']; cbn [snd] in *.
  - eapply extendsBy_weaken; [| exact Hc]. lia.
  - eapply extendsBy_trans; [exact Hc | apply Hh].
Qed.

Lemma returns_tryCatch {A} (c : M A) (h : string -> M A) :
  (forall e, returns (h e)) -> returns (tryCatch c h).
Proof.
  intros Hh net tr. unfold tryCatch.
  destruct (c net tr) as [[a | e] tr']; [now exists a | apply Hh].
Qed.

Lemma returns_ret {A} (a : A) : returns (ret a).
Proof. intros net tr. now exists a. Qed.

End TraceFacts.

Section GithubFacts.
Import Js Net Trace Scenarios.

Variable env : gmap string string.
Variable decodeBase64 : string -> string.

Let authorized := authorizedGet (Github.authorization env).

Lemma bounded_jsonFile r n : bounded authorized n (jsonFile r).
Proof. unfold jsonFile. destruct (json r); apply bounded_ret || apply bounded_throw. Qed.

Lemma bounded_readmeSnippetOf repo :
  bounded authorized 1 (Github.readmeSnippetOf env decodeBase64 repo).
Proof.
  unfold Github.readmeSnippetOf.
  apply (bounded_bind authorized 1 0); [now apply bounded_fetch |].
  intros res. destruct (ok res); [| apply bounded_ret].
  apply (bounded_bind authorized 0 0); [apply bounded_jsonFile |].
  intros f. destruct (file_content f) as [c |]; [| apply bounded_ret].
  destruct (String.eqb c EmptyString); apply bounded_ret.
Qed.

Lemma bounded_readmeResults matched : forall results,
  bounded authorized (length matched)
    (Github.readmeResults env decodeBase64 matched results).
Proof.
  induction matched as [| repo rest IH]; intros results; cbn [Github.readmeResults length].
  - apply bounded_ret.
  - apply (bounded_bind authorized 1 (length rest)); [apply bounded_readmeSnippetOf |].
    intros snippet. apply IH.
Qed.

Lemma bounded_fallbackRepoSearch query username :
  bounded authorized 5 (Github.fallbackRepoSearch env decodeBase64 query username).
Proof.
  unfold Github.fallbackRepoSearch.
  apply (bounded_bind authorized 1 4); [now apply bounded_fetch |].
  intros res. destruct (negb (ok res)); [apply bounded_ret |].
  apply (bounded_bind authorized 0 4).
  { unfold jsonRepos. destruct (json res); apply bounded_ret || apply bounded_throw. }
  intros repos. cbn zeta.
  match goal with |- context [Nat.eqb (length ?m) 0] => set (matched := m) end.
  assert (Hlen : length matched <= 4) by (subst matched; rewrite length_firstn; lia).
  destruct (Nat.eqb (length matched) 0); [apply bounded_ret |].
  apply (bounded_weaken authorized (length matched + 0)); [lia |].
  apply bounded_bind; [apply bounded_readmeResults |].
  intros results. apply bounded_ret.
Qed.

Lemma bounded_fetchSnippets items : forall snippets,
  bounded authorized (length items)
    (Github.fetchSnippets env decodeBase64 items snippets).
Proof.
  induction items as [| item rest IH]; intros snippets; cbn [Github.fetchSnippets length].
  - apply bounded_ret.
  - apply (bounded_bind authorized 1 (length rest)); [now apply bounded_fetch |].
    intros res. destruct (negb (ok res)); [apply IH |].
    apply (bounded_bind authorized 0 (length rest)); [apply bounded_jsonFile |].
    intros f. destruct (file_content f) as [c |]; [| apply IH].
    destruct (String.eqb c EmptyString); apply IH.
Qed.

Lemma bounded_githubSearch query :
  bounded authorized 9 (Github.githubSearch env decodeBase64 query).
Proof.
  unfold Github.githubSearch. cbn zeta.
  destruct (negb (envSet (env !! "GITHUB_TOKEN")) || negb (envSet (env !! "GITHUB_USERNAME")));
    [apply bounded_ret |].
  apply (bounded_tryCatch authorized 9 0); [| intros e; apply bounded_ret].
  apply (bounded_bind authorized 1 8); [now apply bounded_fetch |].
  intros res. destruct (negb (ok res)).
  { apply (bounded_weaken authorized 5); [lia | apply bounded_fallbackRepoSearch]. }
  apply (bounded_bind authorized 0 8).
  { unfold jsonSearch. destruct (json res); apply bounded_ret || apply bounded_throw. }
  intros [total_count items].
  destruct ((total_count =? 0)%Z || Nat.eqb (length items) 0).
  { apply (bounded_weaken authorized 5); [lia | apply bounded_fallbackRepoSearch]. }
  apply (bounded_weaken authorized (length (firstn 3 items) + 5));
    [rewrite length_firstn; lia |].
  apply bounded_bind; [apply bounded_fetchSnippets |].
  intros snippets. destruct (Nat.eqb (length snippets) 0);
    [apply bounded_fallbackRepoSearch | apply bounded_ret].
Qed.

Lemma returns_githubSearch query :
  returns (Github.githubSearch env decodeBase64 query).
Proof.
  unfold Github.githubSearch. cbn zeta.
  destruct (negb (envSet (env !! "GITHUB_TOKEN")) || negb (envSet (env !! "GITHUB_USERNAME")));
    [apply returns_ret |].
  apply returns_tryCatch. intros e. apply returns_ret.
Qed.

(** X13. [githubSearch] never throws and never floods: whatever the network
    answers, it returns a result after at most nine requests (one search,
    up to three file reads, one listing, up to four READMEs), all of them
    GETs carrying the token's [Authorization] header, appended to the
    requests made before. *)
Theorem githubSearch_bounded (query : string) (net : Oracle) (tr : list Request) :
  exists r added,
    Github.githubSearch env decodeBase64 query net tr = (Returned r, (tr ++ added)%list)
    /\ length added <= 9
    /\ Forall (authorizedGet (Github.authorization env)) added.
Proof.
  destruct (returns_githubSearch query net tr) as [r Hr].
  destruct (bounded_githubSearch query net tr) as (added & Htr & Hlen & Hall).
  exists r, added. split; [| now split].
  destruct (Github.githubSearch env decodeBase64 query net tr) as [o tr'].
  cbn [fst snd] in *. congruence.
Qed.

(** X14. Without [GITHUB_TOKEN] or [GITHUB_USERNAME] (unset or empty), both
    code-search tools return the configuration error and make no request;
    [githubSearch] marks it [isError: true]. *)
Theorem githubSearch_unconfigured (query : string) (net : Oracle) (tr : list Request) :
  envSet (env !! "GITHUB_TOKEN") = false \/ envSet (env !! "GITHUB_USERNAME") = false ->
  Github.githubSearch env decodeBase64 query net tr
  = (Returned (mkResult
       [Text "ERROR: GITHUB_TOKEN or GITHUB_USERNAME not set in environment."]
       (Some true)), tr)
  /\ Service.github_search env decodeBase64 query net tr
     = (Returned "ERROR: GITHUB_TOKEN or GITHUB_USERNAME not set in environment.", tr).
Proof.
  intros [H | H]; unfold Github.githubSearch, Service.github_search; rewrite H;
    cbn [negb orb]; rewrite ?orb_true_r; split; reflexivity.
Qed.

(** X15. A code search answered with a status outside 200-299 (a rate
    limit, say) is followed by the repository listing, inside the same
    [try]: what the fallback returns is the result. A search request that
    fails at the network is not: the result is the "GitHub search error"
    text with [isError: true], after that one request. *)
Theorem githubSearch_failed_primary
  (query username : string) (net : Oracle) (tr : list Request) :
  let searchReq := GET (SearchCode query username) (Github.authorization env) in
  env !! "GITHUB_USERNAME" = Some username ->
  envSet (Some username) = true ->
  envSet (env !! "GITHUB_TOKEN") = true ->
  (forall res, net tr searchReq = Responded res -> ok res = false ->
     Github.githubSearch env decodeBase64 query net tr
     = tryCatch (Github.fallbackRepoSearch env decodeBase64 query username)
         Github.searchError net (tr ++ [searchReq])%list)
  /\ (forall message, net tr searchReq = Rejected message ->
        Github.githubSearch env decodeBase64 query net tr
        = (Returned (mkResult [Text ("GitHub search error: " +:+ message)] (Some true)),
           (tr ++ [searchReq])%list)).
Proof.
  intros searchReq Huser Huset Htoken.
  split; intros x Hnet; [intros Hok |];
    unfold Github.githubSearch; rewrite Huser, Htoken, Huset; cbn [negb orb envStr];
    unfold tryCatch at 1, bind at 1, fetch at 1; fold searchReq; rewrite Hnet.
  - rewrite Hok. reflexivity.
  - reflexivity.
Qed.



(** The two fallbacks differ only in the wrapping of the text. *)
Lemma fallbackRepoSearch_text query username net tr :
  Service.fallbackRepoSearch env decodeBase64 query username net tr
  = mapOutcome resultText
      (Github.fallbackRepoSearch env decodeBase64 query username net tr).
Proof.
  unfold Service.fallbackRepoSearch, Github.fallbackRepoSearch.
  unfold bind, fetch, jsonRepos, ret, throw.
  destruct (net tr _) as [res | e]; [| reflexivity].
  destruct (negb (ok res)); [reflexivity |].
  destruct (json res); try reflexivity.
  match goal with |- context [Nat.eqb (length ?m) 0] => set (matched := m) end.
  destruct (Nat.eqb (length matched) 0); [reflexivity |].
  destruct (Github.readmeResults env decodeBase64 matched [] net _) as [[rs | e] t];
    reflexivity.
Qed.

(** X17. The code search of src/index.ts and [githubSearch] of
    tools/github.ts are the same tool: against every network, from every
    trace, they make the same requests, and the text the first returns is
    the text of the result of the second. *)
Theorem github_search_agrees (query : string) (net : Oracle) (tr : list Request) :
  Service.github_search env decodeBase64 query net tr
  = mapOutcome resultText (Github.githubSearch env decodeBase64 query net tr).
Proof.
  unfold Service.github_search, Github.githubSearch. cbn zeta.
  destruct (negb (envSet (env !! "GITHUB_TOKEN")) || negb (envSet (env !! "GITHUB_USERNAME")));
    [reflexivity |].
  unfold tryCatch, Github.searchError.
  unfold bind, fetch, jsonSearch, ret, throw.
  destruct (net tr _) as [res | e]; [| reflexivity].
  destruct (negb (ok res)).
  { rewrite fallbackRepoSearch_text.
    destruct (Github.fallbackRepoSearch _ _ _ _ _ _) as [[r | e] t]; reflexivity. }
  destruct (json res); try reflexivity.
  destruct ((total_count =? 0)%Z || Nat.eqb (length items) 0).
  { rewrite fallbackRepoSearch_text.
    destruct (Github.fallbackRepoSearch _ _ _ _ _ _) as [[r | e] t]; reflexivity. }
  destruct (Github.fetchSnippets env decodeBase64 (firstn 3 items) [] net _)
    as [[snippets | e] t]; [| reflexivity].
  destruct (Nat.eqb (length snippets) 0); [| reflexivity].
  rewrite fallbackRepoSearch_text.
  destruct (Github.fallbackRepoSearch _ _ _ _ _ _) as [[r | e'] t']; reflexivity.
Qed.

End GithubFacts.

Section GithubWitnesses.
Import Js Net Trace Scenarios GithubScenarios.

Lemma githubSearch_unconfigured_witness :
  Github.githubSearch ∅ id "react" offline []
  = (Returned (mkResult
       [Text "ERROR: GITHUB_TOKEN or GITHUB_USERNAME not set in environment."]
       (Some true)), [])
  /\ Service.github_search ∅ id "react" offline []
     = (Returned "ERROR: GITHUB_TOKEN or GITHUB_USERNAME not set in environment.", []).
Proof.
  apply (githubSearch_unconfigured ∅ id "react" offline []). left. reflexivity.
Defined.

Lemma githubSearch_failed_primary_witness :
  Github.githubSearch githubEnv id "react" rateLimitedNet []
  = tryCatch (Github.fallbackRepoSearch githubEnv id "react" "vageshwar")
      Github.searchError rateLimitedNet
      ([] ++ [GET (SearchCode "react" "vageshwar") (Github.authorization githubEnv)])%list.
Proof.
  apply (proj1 (githubSearch_failed_primary githubEnv id "react" "vageshwar"
                  rateLimitedNet [] eq_refl eq_refl eq_refl)
           (mkResponse 403 "API rate limit exceeded" (JsonError "not JSON"))).
  - reflexivity.
  - reflexivity.
Defined.


End GithubWitnesses.

Section LineFacts.
Import Js Trace.

Lemma append_empty_r (s : string) : s +:+ EmptyString = s.
Proof. induction s as [| c s IH]; [reflexivity |]. now rewrite append_cons, IH. Qed.

Lemma noLineFeed_app a b :
  noLineFeed (a +:+ b) = noLineFeed a && noLineFeed b.
Proof.
  induction a as [| c a IH]; [reflexivity |].
  rewrite append_cons. cbn [noLineFeed]. now rewrite IH, andb_assoc.
Qed.

Lemma splitLines_noLineFeed s :
  Forall (fun l => noLineFeed l = true) (splitLines s).
Proof.
  induction s as [| c r IH]; cbn [splitLines]; [now repeat constructor |].
  destruct (Ascii.eqb c "010"%char) eqn:E; [now constructor |].
  destruct (splitLines r) as [| h t]; [repeat constructor; cbn; now rewrite E |].
  apply Forall_inv in IH as Hh. apply Forall_inv_tail in IH as Ht.
  constructor; [cbn; now rewrite E, Hh | exact Ht].
Qed.

Lemma splitLines_line l rest :
  noLineFeed l = true -> splitLines (l +:+ nl +:+ rest) = l :: splitLines rest.
Proof.
  induction l as [| c l IH]; intros Hl.
  - reflexivity.
  - cbn [noLineFeed] in Hl. apply andb_prop in Hl as [Hc Hl].
    rewrite append_cons. cbn [splitLines].
    destruct (Ascii.eqb c "010"%char); [discriminate |]. now rewrite (IH Hl).
Qed.

Lemma splitLines_single l : noLineFeed l = true -> splitLines l = [l].
Proof.
  induction l as [| c l IH]; intros Hl; [reflexivity |].
  cbn [noLineFeed] in Hl. apply andb_prop in Hl as [Hc Hl]. cbn [splitLines].
  destruct (Ascii.eqb c "010"%char); [discriminate |]. now rewrite (IH Hl).
Qed.

(** Splitting what was joined gives the lines back. *)
Lemma splitLines_join ls :
  ls <> [] -> Forall (fun l => noLineFeed l = true) ls ->
  splitLines (join nl ls) = ls.
Proof.
  induction ls as [| x [| y r] IH]; intros Hne Hall; [contradiction | |].
  - cbn [join]. apply splitLines_single. now apply Forall_inv in Hall.
  - change (join nl (x :: y :: r)) with (x +:+ nl +:+ join nl (y :: r)).
    apply Forall_inv in Hall as Hx. apply Forall_inv_tail in Hall as Hr.
    rewrite splitLines_line by exact Hx. f_equal. now apply IH.
Qed.

(** Joining what was split gives the text back. *)
Lemma join_splitLines s : join nl (splitLines s) = s.
Proof.
  induction s as [| c r IH]; [reflexivity |]. cbn [splitLines].
  destruct (Ascii.eqb_spec c "010"%char) as [-> | Hc].
  - destruct (splitLines r) as [| h t] eqn:E; [now destruct r |].
    change (join nl (EmptyString :: h :: t)) with (EmptyString +:+ nl +:+ join nl (h :: t)).
    now rewrite IH.
  - destruct (splitLines r) as [| h [| h' t]] eqn:E.
    + now destruct r.
    + cbn [join] in *. now rewrite IH.
    + change (join nl (String c h :: h' :: t))
        with (String c h +:+ nl +:+ join nl (h' :: t)).
      change (join nl (h :: h' :: t)) with (h +:+ nl +:+ join nl (h' :: t)) in IH.
      now rewrite append_cons, IH.
Qed.

Lemma join_app l1 l2 :
  l1 <> [] -> l2 <> [] ->
  join nl (l1 ++ l2) = join nl l1 +:+ nl +:+ join nl l2.
Proof.
  induction l1 as [| x [| y r] IH]; intros H1 H2; [contradiction | |].
  - destruct l2 as [| z l2]; [contradiction | reflexivity].
  - change (join nl ((x :: y :: r) ++ l2))
      with (x +:+ nl +:+ join nl ((y :: r) ++ l2)).
    rewrite IH by (discriminate || exact H2).
    change (join nl (x :: y :: r)) with (x +:+ nl +:+ join nl (y :: r)).
    now rewrite !append_assoc.
Qed.

Lemma noLineFeed_uint d : noLineFeed (NilEmpty.string_of_uint d) = true.
Proof. induction d; cbn [NilEmpty.string_of_uint noLineFeed]; auto. Qed.

Lemma noLineFeed_showZ z : noLineFeed (showZ z) = true.
Proof.
  unfold showZ, NilZero.string_of_int, NilZero.string_of_uint.
  destruct (Z.to_int z) as [d | d]; destruct d; try reflexivity;
    try (apply (noLineFeed_uint (_ _)));
    cbn [noLineFeed]; try (apply (noLineFeed_uint (_ _))).
Qed.

Lemma noLineFeed_omitted k : noLineFeed (omitted k) = true.
Proof.
  unfold omitted. rewrite !noLineFeed_app, noLineFeed_showZ. reflexivity.
Qed.

(** X18. With the default limit of 40 lines, the output of [truncateCode]
    never has more than 40 lines. A code of more than 40 lines is cut to
    38: its first 20 lines, a blank line, the marker, a blank line, and its
    last 15 lines; head and tail do not overlap, and the count in the
    marker is the number of lines left out between them. *)
Theorem truncateCode_default (code : string) :
  let lines := splitLines code in
  let n := length lines in
  length (splitLines (Github.truncateCode code 40)) <= 40
  /\ (40 < n ->
      splitLines (Github.truncateCode code 40)
      = (firstn 20 lines
           ++ [EmptyString; omitted (Z.of_nat n - 35); EmptyString]
           ++ skipn (n - 15) lines)%list
      /\ lines = (firstn 20 lines ++ firstn (n - 35) (skipn 20 lines)
                    ++ skipn (n - 15) lines)%list
      /\ length (firstn (n - 35) (skipn 20 lines)) = n - 35).
Proof.
  intros lines n.
  assert (Hlong : 40 < n ->
            splitLines (Github.truncateCode code 40)
            = (firstn 20 lines
                 ++ [EmptyString; omitted (Z.of_nat n - 35); EmptyString]
                 ++ skipn (n - 15) lines)%list).
  { intros Hn. rewrite truncateCode_long by (fold lines; fold n; lia).
    fold lines. fold n.
    assert (Hslice : sliceFrom (Z.of_nat n - 15) lines = skipn (n - 15) lines).
    { unfold sliceFrom. destruct (Z.ltb_spec (Z.of_nat n - 15) 0); [lia |].
      f_equal. lia. }
    rewrite Hslice.
    pose proof (splitLines_noLineFeed code) as Hall. fold lines in Hall.
    assert (Hhead : firstn 20 lines <> []).
    { intros E. apply (f_equal (@length _)) in E. rewrite length_firstn in E.
      cbn [length] in E. fold n in E. lia. }
    assert (Htail : skipn (n - 15) lines <> []).
    { intros E. apply (f_equal (@length _)) in E. rewrite length_skipn in E.
      cbn [length] in E. fold n in E. lia. }
    rewrite <- (splitLines_join
                  (firstn 20 lines
                     ++ [EmptyString; omitted (Z.of_nat n - 35); EmptyString]
                     ++ skipn (n - 15) lines)).
    - f_equal. rewrite join_app by (exact Hhead || discriminate).
      rewrite (join_app [_; _; _]) by (discriminate || exact Htail).
      change (join nl [EmptyString; omitted (Z.of_nat n - 35); EmptyString])
        with (EmptyString +:+ nl +:+ omitted (Z.of_nat n - 35) +:+ nl +:+ EmptyString).
      unfold omitted. rewrite !append_assoc, !append_nil. reflexivity.
    - intros E. apply app_eq_nil in E as [E _]. contradiction.
    - apply Forall_app. split; [| apply Forall_app; split].
      + rewrite <- (firstn_skipn 20 lines) in Hall.
        now apply Forall_app in Hall as [Hfirst _].
      + repeat constructor. apply noLineFeed_omitted.
      + rewrite <- (firstn_skipn (n - 15) lines) in Hall.
        now apply Forall_app in Hall as [_ Hlast]. }
  split.
  - destruct (Nat.le_gt_cases n 40) as [Hle | Hgt].
    + rewrite truncateCode_short by (fold lines; fold n; lia). fold lines n. exact Hle.
    + rewrite (Hlong Hgt), !length_app, length_firstn, length_skipn. cbn [length].
      fold n. lia.
  - intros Hn. split; [exact (Hlong Hn) |]. split.
    + rewrite <- (firstn_skipn 20 lines) at 1. f_equal.
      rewrite <- (firstn_skipn (n - 35) (skipn 20 lines)) at 1. f_equal.
      rewrite skipn_skipn. f_equal. lia.
    + rewrite length_firstn, length_skipn. fold n. lia.
Qed.

End LineFacts.

Section DiscordFacts.
Import Js Net Trace Scenarios GithubScenarios.

Variable env : gmap string string.
Variable nowLocale nowISO : string.

(** X19. With the webhook configured, [sendDiscordAlert] makes exactly one
    request, the POST of the notification to the configured URL, and
    always returns: the result is a success exactly when the webhook
    answered with status 204 or 200; any other status, and a request that
    fails, give an error result. *)
Theorem sendDiscordAlert_one_post
  (visitorName company message : string) (net : Oracle) (tr : list Request) :
  let req := POST (Webhook (envStr (env !! "DISCORD_WEBHOOK_URL")))
               (Discord.buildPayload nowLocale nowISO visitorName company message) in
  envSet (env !! "DISCORD_WEBHOOK_URL") = true ->
  exists r,
    Discord.sendDiscordAlert env nowLocale nowISO visitorName company message net tr
    = (Returned r, (tr ++ [req])%list)
    /\ (isError r = None <->
        exists res, net tr req = Responded res
                    /\ (status res = 204 \/ status res = 200)%Z).
Proof.
  intros req Hset. unfold Discord.sendDiscordAlert. rewrite Hset. cbn [negb].
  unfold tryCatch, bind, fetch. fold req.
  destruct (net tr req) as [res | e].
  - destruct (Z.eqb_spec (status res) 204) as [E1 | E1];
      [| destruct (Z.eqb_spec (status res) 200) as [E2 | E2]]; cbn [orb].
    + eexists. split; [reflexivity |]. split; [intros _; exists res; auto | reflexivity].
    + eexists. split; [reflexivity |]. split; [intros _; exists res; auto | reflexivity].
    + eexists. split; [reflexivity |].
      split; [discriminate | intros (res' & Hres & Hst)].
      injection Hres as <-. lia.
  - eexists. split; [reflexivity |].
    split; [discriminate | intros (res' & Hres & _); discriminate].
Qed.

(** X20. The alert tool of src/index.ts and [sendDiscordAlert] of
    tools/discord.ts are the same tool: they make the same request, and
    the text the first returns is the text of the result of the second. *)
Theorem send_discord_alert_agrees
  (visitorName company message : string) (net : Oracle) (tr : list Request) :
  Discord.send_discord_alert env nowLocale nowISO visitorName company message net tr
  = mapOutcome resultText
      (Discord.sendDiscordAlert env nowLocale nowISO visitorName company message net tr).
Proof.
  unfold Discord.send_discord_alert, Discord.sendDiscordAlert.
  destruct (negb (envSet (env !! "DISCORD_WEBHOOK_URL"))); [reflexivity |].
  unfold tryCatch, bind, fetch, ret.
  destruct (net tr _) as [res | e]; [| reflexivity].
  destruct ((status res =? 204)%Z || (status res =? 200)%Z); reflexivity.
Qed.

Lemma strOr_nonempty s dflt : dflt <> EmptyString -> strOr s dflt <> EmptyString.
Proof.
  intros Hd. unfold strOr. destruct (String.eqb_spec s EmptyString); assumption.
Qed.

(** X21. The notification never carries an empty text where the caller
    gave none: the payload has one embed with three fields, its
    description and the visitor and company values are never empty, and
    the third value is the clock's reading. *)
Theorem buildPayload_filled (visitorName company message : string) :
  exists embed visitor org time,
    payload_embeds (Discord.buildPayload nowLocale nowISO visitorName company message)
    = [embed]
    /\ embed_fields embed = [visitor; org; time]
    /\ embed_description embed <> EmptyString
    /\ field_value visitor <> EmptyString
    /\ field_value org <> EmptyString
    /\ field_value time = nowLocale
    /\ (visitorName <> EmptyString -> field_value visitor = visitorName)
    /\ (company <> EmptyString -> field_value org = company)
    /\ (message <> EmptyString -> embed_description embed = message).
Proof.
  unfold Discord.buildPayload. do 4 eexists. cbn.
  repeat split; try (apply strOr_nonempty; discriminate).
  all: intros H; unfold strOr;
    match goal with
    | |- context [String.eqb ?s EmptyString] =>
        destruct (String.eqb_spec s EmptyString); [contradiction | reflexivity]
    end.
Qed.

Lemma returns_sendDiscordAlert (visitorName company message : string) :
  returns (Discord.sendDiscordAlert env nowLocale nowISO visitorName company message).
Proof.
  unfold Discord.sendDiscordAlert.
  destruct (negb (envSet (env !! "DISCORD_WEBHOOK_URL"))); [apply returns_ret |].
  apply returns_tryCatch. intros e. apply returns_ret.
Qed.

End DiscordFacts.

Section DiscordWitnesses.
Import Js Net Trace Scenarios GithubScenarios.

Lemma sendDiscordAlert_one_post_witness :
  exists r,
    Discord.sendDiscordAlert discordEnv "Mon, 5 Jan, 10:00 am"
      "2026-01-05T04:30:00.000Z" "Ada" "Acme" "hello" (webhookNet 201) []
    = (Returned r,
       ([] ++ [POST (Webhook (envStr (discordEnv !! "DISCORD_WEBHOOK_URL")))
                 (Discord.buildPayload "Mon, 5 Jan, 10:00 am"
                    "2026-01-05T04:30:00.000Z" "Ada" "Acme" "hello")])%list)
    /\ (isError r = None <->
        exists res,
          webhookNet 201 []
            (POST (Webhook (envStr (discordEnv !! "DISCORD_WEBHOOK_URL")))
               (Discord.buildPayload "Mon, 5 Jan, 10:00 am"
                  "2026-01-05T04:30:00.000Z" "Ada" "Acme" "hello"))
          = Responded res
          /\ (status res = 204 \/ status res = 200)%Z).
Proof.
  apply (sendDiscordAlert_one_post discordEnv "Mon, 5 Jan, 10:00 am"
           "2026-01-05T04:30:00.000Z" "Ada" "Acme" "hello" (webhookNet 201) []).
  reflexivity.
Defined.

End DiscordWitnesses.

Section DispatchMoreFacts.
Import Js Net Trace Dispatch Scenarios GithubScenarios.

Variable githubSearch : JValue -> M CallToolResult.
Variable getCalendarSlots : JValue -> M CallToolResult.
Variable sendDiscordAlert : JValue -> JValue -> JValue -> M CallToolResult.
Variable nonNumberLe0 : JValue -> bool.

(** X22. A name that [TOOLS] does not declare is answered by the handler
    itself: an [isError] result that names the tool, no executor called,
    no request made. *)
Theorem callTool_unknown (name : string) (args : option (gmap string JValue))
  (net : Oracle) (tr : list Request) :
  ~ In name (map tool_name TOOLS) ->
  callTool githubSearch getCalendarSlots sendDiscordAlert nonNumberLe0 name args net tr
  = (Returned (mkResult [Text ("Unknown tool: " +:+ name)] (Some true)), tr).
Proof.
  intros Hname. unfold callTool. cbn [map TOOLS tool_name In] in Hname.
  destruct (String.eqb_spec name "github_search") as [-> | _]; [tauto |].
  destruct (String.eqb_spec name "get_calendar_slots") as [-> | _]; [tauto |].
  destruct (String.eqb_spec name "send_discord_alert") as [-> | _]; [tauto |].
  reflexivity.
Qed.

(** X23. The handler rejects, without calling the executor, every
    [github_search] whose [query] is falsy (missing, null, empty, [false]
    or [0]) and every [get_calendar_slots] whose [duration] is falsy or a
    number that is not positive; the error names the argument. *)
Theorem callTool_rejects_bad_arguments (args : option (gmap string JValue))
  (net : Oracle) (tr : list Request) :
  (truthy (prop args "query") = false ->
   callTool githubSearch getCalendarSlots sendDiscordAlert nonNumberLe0
     "github_search" args net tr
   = (Returned (mkResult [Text "ERROR: 'query' argument is required."] (Some true)), tr))
  /\ (truthy (prop args "duration") = false
      \/ (exists n, prop args "duration" = Some (JNum n) /\ (n <= 0)%Z) ->
      callTool githubSearch getCalendarSlots sendDiscordAlert nonNumberLe0
        "get_calendar_slots" args net tr
      = (Returned (mkResult
           [Text "ERROR: 'duration' argument must be a positive number (minutes)."]
           (Some true)), tr)).
Proof.
  split.
  - intros H. unfold callTool. cbn [String.eqb Ascii.eqb].
    destruct (prop args "query") as [q |]; [| reflexivity]. now rewrite H.
  - intros H. unfold callTool.
    change ("get_calendar_slots" =? "github_search")%string with false. cbn match.
    change ("get_calendar_slots" =? "get_calendar_slots")%string with true. cbn match.
    destruct H as [H | (n & Hn & Hle)].
    + destruct (prop args "duration") as [d |]; [| reflexivity]. now rewrite H.
    + rewrite Hn. unfold leZero.
      destruct (Z.leb_spec n 0); [| lia]. now rewrite orb_true_r.
Qed.

(** X24. The handler throws nothing of its own: when none of the three
    executors throws, no tool call does, whatever the name and the
    arguments. *)
Theorem callTool_returns (name : string) (args : option (gmap string JValue)) :
  (forall v, returns (githubSearch v)) ->
  (forall v, returns (getCalendarSlots v)) ->
  (forall a b c, returns (sendDiscordAlert a b c)) ->
  returns (callTool githubSearch getCalendarSlots sendDiscordAlert nonNumberLe0
             name args).
Proof.
  intros Hg Hc Hd. unfold callTool.
  destruct (String.eqb name "github_search").
  { destruct (prop args "query") as [q |]; [| apply returns_ret].
    destruct (negb (truthy (Some q))); [apply returns_ret | apply Hg]. }
  destruct (String.eqb name "get_calendar_slots").
  { destruct (prop args "duration") as [d |]; [| apply returns_ret].
    destruct (negb (truthy (Some d)) || leZero nonNumberLe0 d);
      [apply returns_ret | apply Hc]. }
  destruct (String.eqb name "send_discord_alert"); [apply Hd | apply returns_ret].
Qed.

End DispatchMoreFacts.

Section DispatchWitnesses.
Import Js Net Trace Dispatch Scenarios GithubScenarios.

Lemma callTool_unknown_witness :
  callTool (fun query => Github.githubSearch githubEnv id (asText query))
    (fun _ => ret (errorResult "ERROR: GOOGLE_CALENDAR_ID not set in environment."))
    (discordExecutor "Mon, 5 Jan, 10:00 am" "2026-01-05T04:30:00.000Z")
    (fun _ => false) "get_weather" (Some ∅) offline []
  = (Returned (mkResult [Text ("Unknown tool: " +:+ "get_weather")] (Some true)), []).
Proof.
  apply (callTool_unknown
           (fun query => Github.githubSearch githubEnv id (asText query))
           (fun _ => ret (errorResult "ERROR: GOOGLE_CALENDAR_ID not set in environment."))
           (discordExecutor "Mon, 5 Jan, 10:00 am" "2026-01-05T04:30:00.000Z")
           (fun _ => false) "get_weather" (Some ∅) offline []).
  cbn. intros [H | [H | [H | []]]]; discriminate H.
Defined.

Lemma callTool_returns_witness :
  returns
    (callTool (fun query => Github.githubSearch githubEnv id (asText query))
       (fun _ => ret (errorResult "ERROR: GOOGLE_CALENDAR_ID not set in environment."))
       (discordExecutor "Mon, 5 Jan, 10:00 am" "2026-01-05T04:30:00.000Z")
       (fun _ => false) "send_discord_alert" None).
Proof.
  apply (callTool_returns
           (fun query => Github.githubSearch githubEnv id (asText query))
           (fun _ => ret (errorResult "ERROR: GOOGLE_CALENDAR_ID not set in environment."))
           (discordExecutor "Mon, 5 Jan, 10:00 am" "2026-01-05T04:30:00.000Z")
           (fun _ => false) "send_discord_alert" None).
  - intros v. apply returns_githubSearch.
  - intros v. apply returns_ret.
  - intros a b c. apply returns_sendDiscordAlert.
Defined.

End DispatchWitnesses.
